(** * nv-cli: the plan / execute / fix-loop agent

    A shallow embedding of [nvcli.agent.tools], [nvcli.agent.planner],
    [nvcli.agent.executor] and the fix loop of [nvcli.commands.run].

    Python values are modelled as follows.
    - [str] is a sequence of Unicode code points ([list N]); slicing,
      [strip], [splitlines] and the regular expressions of the planner
      therefore count characters the way Python does.
    - The process-wide dict [_pending_writes] is a [gmap] keyed by the
      resolved path.
    - Coroutines run one after the other (there is a single logical thread),
      so every [async def] is a state transformer over [State].
    - What the program asks of its surroundings (the operator at a prompt,
      the shell, the glob walk, the model API, path resolution, the loaded
      configuration) is read from an [Env] of oracles; the k-th request of a
      kind is answered by the oracle at index k.
    - Pure display calls ([rprint], [console.print], [show_diff],
      [Plan.display]) have no effect on any value the program computes and
      are left out, except the status lines of the fix loop, which are the
      only thing that loop produces. *)

From Stdlib Require Import ZArith NArith Lia Ascii String DecimalString.
From Stdlib Require Import DecimalFacts DecimalPos DecimalN DecimalZ.
From stdpp Require Import base option list gmap.

Local Open Scope list_scope.

(** ** Python strings *)

Module Py.

Abbreviation str := (list N).

(** A literal: the code points of an ASCII string. *)
Definition py (s : string) : str :=
  map N_of_ascii (list_ascii_of_string s).

(** [str(i)] for an int. *)
Definition str_of_int (z : Z) : str :=
  py (NilZero.string_of_int (Z.to_int z)).

Definition NL : N := 10.
Definition CR : N := 13.

(** [str.isspace] on one character; [re]'s [\s] on a str pattern is the
    same set. *)
Definition isspace (c : N) : bool :=
  ((9 <=? c) && (c <=? 13) || (28 <=? c) && (c <=? 32) || (c =? 133)
   || (c =? 160) || (c =? 5760) || (8192 <=? c) && (c <=? 8202)
   || (c =? 8232) || (c =? 8233) || (c =? 8239) || (c =? 8287)
   || (c =? 12288))%N.

Fixpoint lstrip (s : str) : str :=
  match s with
  | c :: s' => if isspace c then lstrip s' else s
  | [] => []
  end.

Definition rstrip (s : str) : str := rev (lstrip (rev s)).

(** [s.strip()] *)
Definition strip (s : str) : str := lstrip (rstrip s).

(** [s.startswith(prefix)] *)
Fixpoint startswith (s prefix : str) : bool :=
  match prefix, s with
  | [], _ => true
  | p :: prefix', c :: s' => (p =? c)%N && startswith s' prefix'
  | _ :: _, [] => false
  end.

(** [needle in hay] *)
Fixpoint contains (needle hay : str) : bool :=
  startswith hay needle ||
  match hay with
  | [] => false
  | _ :: hay' => contains needle hay'
  end.

(** [sep.join(parts)] *)
Fixpoint join (sep : str) (parts : list str) : str :=
  match parts with
  | [] => []
  | [p] => p
  | p :: parts' => p ++ sep ++ join sep parts'
  end.

(** The line boundaries of [str.splitlines]. *)
Definition is_linebreak (c : N) : bool :=
  ((10 <=? c) && (c <=? 13) || (28 <=? c) && (c <=? 30) || (c =? 133)
   || (c =? 8232) || (c =? 8233))%N.

(** [s.splitlines()]: [cur] is the line being read, reversed; [after_cr]
    says the previous character was a carriage return, whose following
    line feed belongs to the same boundary. *)
Fixpoint splitlines_from (cur : str) (after_cr : bool) (s : str) : list str :=
  match s with
  | [] => match cur with [] => [] | _ => [rev cur] end
  | c :: s' =>
      if after_cr && (c =? NL)%N then splitlines_from cur false s'
      else if is_linebreak c then rev cur :: splitlines_from [] (c =? CR)%N s'
      else splitlines_from (c :: cur) false s'
  end.

Definition splitlines (s : str) : list str := splitlines_from [] false s.

Fixpoint take_while {A} (f : A -> bool) (l : list A) : list A :=
match l with
| x :: l' => if f x then x :: take_while f l' else []
| [] => []
end.

Fixpoint drop_while {A} (f : A -> bool) (l : list A) : list A :=
match l with
| x :: l' => if f x then drop_while f l' else l
| [] => []
end.

(** First element of [s.split()], if there is one. *)
Definition first_word (s : str) : option str :=
  match lstrip s with
  | [] => None
  | w => Some (take_while (fun c => negb (isspace c)) w)
  end.

(** What a text-mode read returns for stored text: [\r\n] and a lone [\r]
    become [\n] (universal newlines). *)
Fixpoint universal_newlines_from (after_cr : bool) (s : str) : str :=
  match s with
  | [] => []
  | c :: s' =>
      if after_cr && (c =? NL)%N then universal_newlines_from false s'
      else if (c =? CR)%N then NL :: universal_newlines_from true s'
      else c :: universal_newlines_from false s'
  end.

Definition universal_newlines (s : str) : str := universal_newlines_from false s.

End Py.
Import Py.


(** ** Results, exceptions, the environment and the state *)

(** An exception whose text the program can read with [str(e)].  Its class
    is the one an [except] clause of the program sees: [ValueError] and
    [RuntimeError] stand for their subclasses too. *)
Inductive exn_class :=
| OSError | IndexError | ValueError | RuntimeError | OtherException.

Record exn := Exn { exn_cls : exn_class; exn_msg : str }.

(** What plan generation and the fix loop can raise.  [Raised] carries an
    exception whose text is known; the wording of the others belongs to the
    interpreter.
    [JSONDecodeError] is a subclass of [ValueError].  [Untyped] stands for
    a [Plan] that Python does build but whose fields are not of the types
    the dataclasses declare, which the records of the planner cannot
    hold. *)
Inductive error :=
| Raised (e : exn)
| JSONDecodeError
| KeyError (key : str)
| TypeError
| AttributeError
| Untyped.

Inductive result (X A : Type) :=
| Ok (a : A)
| Raise (e : X).
Arguments Ok {X A} a.
Arguments Raise {X A} e.

(** The operator's answer to the step prompt
    [Prompt.ask(..., choices=["y", "n", "a"], default="y")]. *)
Inductive Choice := ChoiceY | ChoiceN | ChoiceA.

(** What [asyncio.create_subprocess_shell] followed by [communicate] does:
    the process ends with a return code and its two decoded streams, or the
    spawn raises [FileNotFoundError], or anything else is raised. *)
Inductive Spawned :=
| Exited (returncode : Z) (stdout stderr : str)
| SpawnFileNotFound
| SpawnRaised (e : exn).

(** A path on disk: a text file with its stored text, or something that
    exists but whose opening for reading raises [OSError] (a directory, a
    file without permission). *)
Inductive Node :=
| File (stored : str)
| Unreadable (oserror : str).

Record Env := {
  (** [str(Path(p).resolve())] *)
  resolve : str -> str;
  (** [load_config().command_allowlist] *)
  command_allowlist : list str;
  (** [rich.prompt.Confirm.ask], k-th call *)
  confirm_ask : nat -> bool;
  (** [rich.prompt.Prompt.ask] at a plan step, k-th call *)
  prompt_ask : nat -> Choice;
  (** [typer.confirm], k-th call *)
  typer_confirm : nat -> bool;
  (** k-th spawn, of [command] in [cwd] *)
  shell : nat -> str -> str -> Spawned;
  (** k-th [sorted(Path(base).glob(pattern))], as paths relative to [base] *)
  glob : nat -> str -> str -> result exn (list str);
  (** [OSError] text when creating the parent directories of the resolved
      path or opening it for writing fails *)
  write_fault : str -> option str;
  (** k-th [stream_to_string(client.stream_chat(...))] for a task, a
      context directory and a model override, with [load_config] and
      [get_client] before it *)
  stream_chat : nat -> str -> str -> option str -> result exn str;
  (** [_collect_repo_context(context_path)] *)
  _collect_repo_context : str -> str
}.

(** The status lines of the fix loop. *)
Inductive FixStatus :=
| FixIteration (iteration max_iterations : Z)
| CouldNotGeneratePlan (e : error)
| FixLoopCancelled
| Rerunning (command : str)
| FixedAfter (iteration : Z)
| StillFailing (iteration : Z)
| CouldNotFix (max_iterations : Z).

Inductive Event :=
| EvConfirmAsk (prompt : str) (answer : bool)
| EvPromptAsk (prompt : str) (answer : Choice)
| EvTyperConfirm (prompt : str) (answer : bool)
| EvSpawn (command cwd : str)
| EvGlob (base pattern : str)
| EvWrite (resolved content : str)
| EvChat (task context_path : str)
| EvSummary (changed_files : list str)
| EvStatus (s : FixStatus).

Record State := {
  (** resolved path to what is there *)
  fs : gmap str Node;
  (** [_pending_writes]: resolved path to (original, new) *)
  _pending_writes : gmap str (str * str);
  (** what the process has done so far, oldest first *)
  trace : list Event
}.

Definition log (e : Event) (st : State) : State :=
  {| fs := fs st; _pending_writes := _pending_writes st;
     trace := trace st ++ [e] |}.

Definition is_confirm_ask (e : Event) : bool :=
  match e with EvConfirmAsk _ _ => true | _ => false end.
Definition is_prompt_ask (e : Event) : bool :=
  match e with EvPromptAsk _ _ => true | _ => false end.
Definition is_typer_confirm (e : Event) : bool :=
  match e with EvTyperConfirm _ _ => true | _ => false end.
Definition is_spawn (e : Event) : bool :=
  match e with EvSpawn _ _ => true | _ => false end.
Definition is_glob (e : Event) : bool :=
  match e with EvGlob _ _ => true | _ => false end.
Definition is_write (e : Event) : bool :=
  match e with EvWrite _ _ => true | _ => false end.
Definition is_chat (e : Event) : bool :=
  match e with EvChat _ _ => true | _ => false end.
Definition is_summary (e : Event) : bool :=
  match e with EvSummary _ => true | _ => false end.

(** How many events of a kind have happened. *)
Definition count (kind : Event -> bool) (st : State) : nat :=
  length (List.filter kind (trace st)).

(** A coroutine: it may change the state and returns or raises. *)
Definition M (X A : Type) : Type := State -> result X A * State.

Definition ret {X A} (a : A) : M X A := fun st => (Ok a, st).
Definition bind {X A B} (m : M X A) (k : A -> M X B) : M X B :=
  fun st =>
    match m st with
    | (Ok a, st') => k a st'
    | (Raise e, st') => (Raise e, st')
    end.
(** [try: m except Exception as e: h(e)], for a handler that does not raise. *)
Definition try_except {X A} (m : M X A) (h : X -> A) : State -> A * State :=
  fun st =>
    match m st with
    | (Ok a, st') => (a, st')
    | (Raise e, st') => (h e, st')
    end.

Notation "'let*' x := m 'in' k" := (bind m (fun x => k))
  (at level 10, x name, m at level 200, k at level 200).

(** ** nvcli/agent/tools.py *)

Module Tools.
Section WithEnv.
Context (E : Env).

(** [Confirm.ask(prompt)] *)
Definition Confirm_ask (prompt : str) : M exn bool :=
  fun st =>
    let answer := confirm_ask E (count is_confirm_ask st) in
    (Ok answer, log (EvConfirmAsk prompt answer) st).

(** The text a read of [path] in text mode gives, as [write_file] takes it:
    empty when the file is not there or cannot be read. *)
Definition read_original (path : str) (st : State) : str :=
  match fs st !! resolve E path with
  | Some (File stored) => universal_newlines stored
  | Some (Unreadable _) => []
  | None => []
  end.

Definition read_file (path : str) : M exn str :=
  fun st =>
    match fs st !! resolve E path with
    | None => (Ok (py "[File not found: " ++ path ++ py "]"), st)
    | Some (Unreadable e) =>
        (Ok (py "[Error reading " ++ path ++ py ": " ++ e ++ py "]"), st)
    | Some (File stored) =>
        let content := universal_newlines stored in
        let lines := splitlines content in
        if 500 <? length lines then
          (Ok (join [NL] (take 500 lines)
               ++ [NL] ++ py "... [truncated, "
               ++ str_of_int (Z.of_nat (length lines) - 500)
               ++ py " more lines]"), st)
        else (Ok content, st)
    end.

(** The write itself: parent directories, open, write, then the entry in
    [_pending_writes]. *)
Definition commit_write (path original content : str) : M exn str :=
  fun st =>
    let resolved := resolve E path in
    match write_fault E resolved with
    | Some msg => (Raise (Exn OSError msg), st)
    | None =>
        (Ok (py "Written: " ++ path),
         {| fs := <[resolved := File content]> (fs st);
            _pending_writes :=
              <[resolved := (original, content)]> (_pending_writes st);
            trace := trace st ++ [EvWrite resolved content] |})
    end.

Definition write_file (path content : str) (skip_confirm : bool) : M exn str :=
  fun st =>
    let original := read_original path st in
    if decide (original = content) then
      (Ok (py "No changes needed for " ++ path), st)
    else if skip_confirm then commit_write path original content st
    else
      (let* confirmed := Confirm_ask ([NL] ++ py "Apply changes to [cyan]" ++ path
                                      ++ py "[/cyan]?") in
       if negb confirmed then ret (py "Skipped: " ++ path)
       else commit_write path original content) st.

(** [sorted(Path(base).glob(pattern))] *)
Definition sorted_glob (base pattern : str) : M exn (list str) :=
  fun st =>
    (glob E (count is_glob st) base pattern, log (EvGlob base pattern) st).

Definition search_files (pattern path : str) : M exn str :=
  let* matches := sorted_glob path pattern in
  let* matches := match matches with
                  | [] => sorted_glob path (py "**/" ++ pattern)
                  | _ => ret matches
                  end in
  match matches with
  | [] => ret (py "No files found matching '" ++ pattern ++ py "' in '"
               ++ path ++ py "'")
  | _ =>
      let result :=
        py "Found " ++ str_of_int (Z.of_nat (length matches))
        ++ py " file(s):" ++ [NL]
        ++ join [NL] (map (fun m => py "  " ++ m) (take 50 matches)) in
      if 50 <? length matches then
        ret (result ++ [NL] ++ py "  ... and "
             ++ str_of_int (Z.of_nat (length matches) - 50) ++ py " more")
      else ret result
  end.

Definition get_pending_diff (file_path : str) (st : State) : option (str * str) :=
  _pending_writes st !! resolve E file_path.

Definition clear_pending (file_path : option str) (st : State) : State :=
  match file_path with
  | None =>
      {| fs := fs st; _pending_writes := ∅; trace := trace st |}
  | Some file_path =>
      {| fs := fs st;
         _pending_writes := delete (resolve E file_path) (_pending_writes st);
         trace := trace st |}
  end.

(** [any(command.startswith(allowed) for allowed in config.command_allowlist)] *)
Definition in_allowlist (command : str) : bool :=
  existsb (fun allowed => startswith command allowed) (command_allowlist E).

(** The part of [run_cmd] after the confirmation: spawn and collect. *)
Definition spawn_and_collect (command cwd : str) (capture : bool)
  : M exn (Z * str * str) :=
  fun st =>
    let st' := log (EvSpawn command cwd) st in
    match shell E (count is_spawn st) command cwd with
    | Exited returncode stdout stderr =>
        (Ok (returncode,
             if capture then strip stdout else [],
             if capture then strip stderr else []), st')
    | SpawnFileNotFound =>
        match first_word command with
        | Some w => (Ok (127%Z, [], py "Command not found: " ++ w), st')
        | None => (Raise (Exn IndexError (py "list index out of range")), st')
        end
    | SpawnRaised e => (Ok (1%Z, [], exn_msg e), st')
    end.

Definition run_cmd (command cwd : str) (capture skip_confirm : bool)
  : M exn (Z * str * str) :=
  if negb skip_confirm && negb (in_allowlist command) then
    let* confirmed := Confirm_ask (py "Execute?") in
    if negb confirmed then ret (0%Z, [], py "skipped")
    else spawn_and_collect command cwd capture
  else spawn_and_collect command cwd capture.

End WithEnv.

(** The functions [TOOL_MAP] holds. *)
Inductive tool_fn := fn_read_file | fn_write_file | fn_search_files | fn_run_cmd.

Definition TOOL_MAP : gmap str tool_fn :=
  <[py "read_file" := fn_read_file]>
  (<[py "write_file" := fn_write_file]>
   (<[py "search_files" := fn_search_files]>
    (<[py "run_cmd" := fn_run_cmd]> ∅))).

End Tools.

(** ** json.loads

    The decoder of Python's standard library, on a str.  A float is kept as
    the text of its literal, since no arithmetic is done on it.  The members
    of an object are kept in the order read; the dict Python builds holds
    the last value given for a key ([dict_get]). *)

Module Json.

#[local] Set Warnings "-register-all".
Inductive json :=
| JNull
| JBool (b : bool)
| JInt (z : Z)
| JFloat (literal : str)
| JStr (s : str)
| JArr (items : list json)
| JObj (members : list (str * json)).

Definition QUOTE : N := 34.
Definition BACKSLASH : N := 92.

(** The whitespace of the decoder: space, tab, line feed, carriage return. *)
Definition is_ws (c : N) : bool :=
  ((c =? 32) || (c =? 9) || (c =? 10) || (c =? 13))%N.

Definition skip_ws (s : str) : str := drop_while is_ws s.

Definition is_digit (c : N) : bool := ((48 <=? c) && (c <=? 57))%N.

Definition hexval (c : N) : option N :=
  if ((48 <=? c) && (c <=? 57))%N then Some (c - 48)%N
  else if ((65 <=? c) && (c <=? 70))%N then Some (c - 55)%N
  else if ((97 <=? c) && (c <=? 102))%N then Some (c - 87)%N
  else None.

(** The four hexadecimal digits after [\u], and what follows them. *)
Definition decode_uXXXX (s : str) : option (N * str) :=
  match s with
  | a :: b :: c :: d :: rest =>
      match hexval a, hexval b, hexval c, hexval d with
      | Some a, Some b, Some c, Some d =>
          Some (((a * 16 + b) * 16 + c) * 16 + d, rest)%N
      | _, _, _, _ => None
      end
  | _ => None
  end.

(** The character a one-letter escape stands for. *)
Definition unescape (c : N) : option N :=
  if (c =? QUOTE)%N then Some QUOTE
  else if (c =? BACKSLASH)%N then Some BACKSLASH
  else if (c =? 47)%N then Some 47%N
  else if (c =? 98)%N then Some 8%N
  else if (c =? 102)%N then Some 12%N
  else if (c =? 110)%N then Some 10%N
  else if (c =? 114)%N then Some 13%N
  else if (c =? 116)%N then Some 9%N
  else None.

(** [scanstring], from just after the opening quote, in strict mode: the
    decoded string and the text after the closing quote.  [acc] holds the
    characters decoded so far, latest first. *)
Fixpoint scanstring (fuel : nat) (acc : str) (s : str) : option (str * str) :=
  match fuel with
  | O => None
  | S fuel =>
      match s with
      | [] => None
      | c :: s' =>
          if (c =? QUOTE)%N then Some (rev acc, s')
          else if (c <? 32)%N then None
          else if (c =? BACKSLASH)%N then
            match s' with
            | [] => None
            | esc :: s'' =>
                if (esc =? 117)%N then
                  match decode_uXXXX s'' with
                  | None => None
                  | Some (uni, rest) =>
                      if ((55296 <=? uni) && (uni <=? 56319))%N
                         && startswith rest [BACKSLASH; 117%N] then
                        match decode_uXXXX (drop 2 rest) with
                        | None => None
                        | Some (uni2, rest2) =>
                            if ((56320 <=? uni2) && (uni2 <=? 57343))%N then
                              scanstring fuel
                                ((65536 + N.lor (N.shiftl (uni - 55296) 10)
                                                (uni2 - 56320))%N :: acc)
                                rest2
                            else scanstring fuel (uni :: acc) rest
                        end
                      else scanstring fuel (uni :: acc) rest
                  end
                else
                  match unescape esc with
                  | None => None
                  | Some c' => scanstring fuel (c' :: acc) s''
                  end
            end
          else scanstring fuel (c :: acc) s'
      end
  end.

(** The value of a run of decimal digits. *)
Definition int_of_digits (ds : str) : Z :=
  fold_left (fun acc d => acc * 10 + Z.of_N (d - 48)%N)%Z ds 0%Z.

(** The parts of a number, each as the characters taken and the rest: an
    optional minus sign; a zero, or a run of digits that does not start with
    zero; an optional fraction, a dot and digits; an optional exponent, [e]
    or [E], an optional sign and digits. *)
Definition scan_sign (s : str) : str * str :=
  match s with
  | c :: s' => if (c =? 45)%N then ([c], s') else ([], s)
  | [] => ([], s)
  end.

Definition scan_integer (s : str) : option (str * str) :=
  match s with
  | c :: s' =>
      if (c =? 48)%N then Some ([c], s')
      else if is_digit c then
        Some (c :: take_while is_digit s', drop_while is_digit s')
      else None
  | [] => None
  end.

Definition scan_frac (s : str) : str * str :=
  match s with
  | dot :: d :: s' =>
      if (dot =? 46)%N && is_digit d then
        (dot :: d :: take_while is_digit s', drop_while is_digit s')
      else ([], s)
  | _ => ([], s)
  end.

Definition scan_exp (s : str) : str * str :=
  match s with
  | e :: s' =>
      if ((e =? 101) || (e =? 69))%N then
        let '(esign, s'') :=
          match s' with
          | c :: t => if ((c =? 45) || (c =? 43))%N then ([c], t) else ([], s')
          | [] => ([], s')
          end in
        match take_while is_digit s'' with
        | [] => ([], s)
        | ds => (e :: esign ++ ds, drop_while is_digit s'')
        end
      else ([], s)
  | [] => ([], s)
  end.

(** A number is an int when it has neither fraction nor exponent. *)
Definition scan_number (s : str) : option (json * str) :=
  let '(sign, s1) := scan_sign s in
  match scan_integer s1 with
  | None => None
  | Some (int_digits, s2) =>
      let '(frac, s3) := scan_frac s2 in
      let '(exp, s4) := scan_exp s3 in
      match frac, exp with
      | [], [] =>
          Some (JInt (match sign with
                      | [] => int_of_digits int_digits
                      | _ => - int_of_digits int_digits
                      end), s4)
      | _, _ => Some (JFloat (sign ++ int_digits ++ frac ++ exp), s4)
      end
  end.

(** [scan_once]: the value that starts at the head of [s], and the rest. *)
Fixpoint scan_once (fuel : nat) (s : str) : option (json * str) :=
  match fuel with
  | O => None
  | S fuel =>
      match s with
      | [] => None
      | c :: s' =>
          if (c =? QUOTE)%N then
            match scanstring (length s') [] s' with
            | Some (v, rest) => Some (JStr v, rest)
            | None => None
            end
          else if (c =? 123)%N then
            match skip_ws s' with
            | c1 :: s1 =>
                if (c1 =? 125)%N then Some (JObj [], s1)
                else
                  match scan_members fuel (c1 :: s1) with
                  | Some (members, rest) => Some (JObj members, rest)
                  | None => None
                  end
            | [] => None
            end
          else if (c =? 91)%N then
            match skip_ws s' with
            | c1 :: s1 =>
                if (c1 =? 93)%N then Some (JArr [], s1)
                else
                  match scan_items fuel (c1 :: s1) with
                  | Some (items, rest) => Some (JArr items, rest)
                  | None => None
                  end
            | [] => None
            end
          else if startswith s (py "null") then Some (JNull, drop 4 s)
          else if startswith s (py "true") then Some (JBool true, drop 4 s)
          else if startswith s (py "false") then Some (JBool false, drop 5 s)
          else
            match scan_number s with
            | Some r => Some r
            | None =>
                if startswith s (py "NaN") then Some (JFloat (py "NaN"), drop 3 s)
                else if startswith s (py "Infinity") then
                  Some (JFloat (py "Infinity"), drop 8 s)
                else if startswith s (py "-Infinity") then
                  Some (JFloat (py "-Infinity"), drop 9 s)
                else None
            end
      end
  end

(** The members of an object from the quote of a key on, up to and with the
    closing brace. *)
with scan_members (fuel : nat) (s : str) : option (list (str * json) * str) :=
  match fuel with
  | O => None
  | S fuel =>
      match s with
      | q :: s' =>
          if (q =? QUOTE)%N then
            match scanstring (length s') [] s' with
            | None => None
            | Some (key, s1) =>
                match skip_ws s1 with
                | colon :: s2 =>
                    if (colon =? 58)%N then
                      match scan_once fuel (skip_ws s2) with
                      | None => None
                      | Some (value, s3) =>
                          match skip_ws s3 with
                          | d :: s4 =>
                              if (d =? 125)%N then Some ([(key, value)], s4)
                              else if (d =? 44)%N then
                                match scan_members fuel (skip_ws s4) with
                                | Some (more, rest) =>
                                    Some ((key, value) :: more, rest)
                                | None => None
                                end
                              else None
                          | [] => None
                          end
                      end
                    else None
                | [] => None
                end
            end
          else None
      | [] => None
      end
  end

(** The items of an array from the first one on, up to and with the closing
    bracket. *)
with scan_items (fuel : nat) (s : str) : option (list json * str) :=
  match fuel with
  | O => None
  | S fuel =>
      match scan_once fuel s with
      | None => None
      | Some (value, s1) =>
          match skip_ws s1 with
          | d :: s2 =>
              if (d =? 93)%N then Some ([value], s2)
              else if (d =? 44)%N then
                match scan_items fuel (skip_ws s2) with
                | Some (more, rest) => Some (value :: more, rest)
                | None => None
                end
              else None
          | [] => None
          end
      end
  end.

(** [json.loads(s)]: one value between optional whitespace, nothing after
    it; [None] stands for [JSONDecodeError].  The fuel is above what any
    value in [s] can need ([loads_enough]). *)
Definition loads (s : str) : option json :=
  match scan_once (S (length s)) (skip_ws s) with
  | Some (v, rest) =>
      match skip_ws rest with
      | [] => Some v
      | _ => None
      end
  | None => None
  end.

(** [d.get(key)] on the dict built from the members. *)
Fixpoint dict_get (key : str) (members : list (str * json)) : option json :=
  match members with
  | [] => None
  | (k, v) :: members' =>
      match dict_get key members' with
      | Some later => Some later
      | None => if decide (k = key) then Some v else None
      end
  end.

End Json.
Import Json.

(** ** nvcli/agent/planner.py *)

Module Planner.

(** The dataclasses, with the types their annotations give; the values of
    [args] are the strings the tools take. *)
Record PlanStep := {
  n : Z;
  description : str;
  tool : str;
  args : gmap str str
}.

Record Plan := {
  summary : str;
  steps : list PlanStep;
  raw_context : str
}.

(** [re.sub] with an empty replacement: the matches are looked for from
    left to right and deleted, the search going on after each match.
    [match_at prev s] is the length of the match of the pattern that starts
    at the head of [s], where [prev] is the character before it; [skip]
    counts the characters of the current match still to delete.  Both
    patterns used here match three backquotes at least. *)
Fixpoint delete_matches (match_at : option N -> str -> option nat)
    (prev : option N) (skip : nat) (s : str) : str :=
  match s with
  | [] => []
  | c :: s' =>
      match skip with
      | S k => delete_matches match_at (Some c) k s'
      | O =>
          match match_at prev s with
          | Some (S k) => delete_matches match_at (Some c) k s'
          | _ => c :: delete_matches match_at (Some c) O s'
          end
      end
  end.

Definition FENCE : str := [96; 96; 96]%N.

(** The pattern of the first substitution, in multi-line mode: at the start
    of a line three backquotes, then [json] if it is there, then all the
    whitespace that follows. *)
Definition fence_open_at (prev : option N) (s : str) : option nat :=
  let at_line_start :=
    match prev with None => true | Some c => (c =? NL)%N end in
  if at_line_start && startswith s FENCE then
    let r := drop 3 s in
    if startswith r (py "json") then
      Some (3 + 4 + length (take_while isspace (drop 4 r)))
    else Some (3 + length (take_while isspace r))
  else None.

(** Position of the last occurrence of [c]. *)
Fixpoint last_index_of (c : N) (s : str) : option nat :=
  match s with
  | [] => None
  | x :: s' =>
      match last_index_of c s' with
      | Some j => Some (S j)
      | None => if (x =? c)%N then Some O else None
      end
  end.

(** The pattern of the second substitution, in multi-line mode: whitespace,
    three backquotes, whitespace, then the end of a line.  The whitespace
    after the backquotes is taken as far as it goes when it reaches the end
    of the text, and otherwise up to its last line feed. *)
Definition fence_close_at (prev : option N) (s : str) : option nat :=
  let w1 := take_while isspace s in
  let r := drop_while isspace s in
  if startswith r FENCE then
    let w2 := take_while isspace (drop 3 r) in
    match drop_while isspace (drop 3 r) with
    | [] => Some (length w1 + 3 + length w2)
    | _ :: _ =>
        match last_index_of NL w2 with
        | Some k => Some (length w1 + 3 + k)
        | None => None
        end
    end
  else None.

(** [re.search(r"\{.*\}", text, re.DOTALL)]: from the first opening brace to
    the last closing brace. *)
Definition search_braces (text : str) : option str :=
  match drop_while (fun c => negb (c =? 123)%N) text with
  | [] => None
  | from_open =>
      match rev (drop_while (fun c => negb (c =? 125)%N) (rev from_open)) with
      | [] => None
      | span => Some span
      end
  end.

(** The text in which the JSON object is looked for. *)
Definition strip_fences (raw : str) : str :=
  let text := strip raw in
  let text := delete_matches fence_open_at None 0 text in
  let text := delete_matches fence_close_at None 0 text in
  strip text.

(** The four arguments of [PlanStep(...)] for one entry of the list. *)
Definition step_fields (s : json) : result error (json * json * json * json) :=
  match s with
  | JObj m =>
      match dict_get (py "n") m with
      | None => Raise (KeyError (py "n"))
      | Some vn =>
          match dict_get (py "description") m with
          | None => Raise (KeyError (py "description"))
          | Some vd =>
              match dict_get (py "tool") m with
              | None => Raise (KeyError (py "tool"))
              | Some vt =>
                  Ok (vn, vd, vt, default (JObj []) (dict_get (py "args") m))
              end
          end
      end
  | _ => Raise TypeError
  end.

(** The list comprehension over the entries. *)
Fixpoint steps_fields (entries : list json)
  : result error (list (json * json * json * json)) :=
  match entries with
  | [] => Ok []
  | s :: entries' =>
      match step_fields s with
      | Raise e => Raise e
      | Ok f =>
          match steps_fields entries' with
          | Raise e => Raise e
          | Ok fs => Ok (f :: fs)
          end
      end
  end.

(** What iterating over [data.get("steps", [])] gives: the items of a list;
    nothing for an empty str or dict; characters or keys, which are strs
    and cannot be indexed by ["n"], otherwise; and a number, a bool or
    [None] is not iterable. *)
Definition iterate_steps (v : json) : result error (list json) :=
  match v with
  | JArr items => Ok items
  | JStr [] => Ok []
  | JObj [] => Ok []
  | _ => Raise TypeError
  end.

(** The dict of an [args] object as a map of strs: every key of the object
    with the value the dict holds for it, which has to be a str. *)
Fixpoint typed_members (dict members : list (str * json))
  : option (gmap str str) :=
  match members with
  | [] => Some ∅
  | (k, _) :: members' =>
      match dict_get k dict, typed_members dict members' with
      | Some (JStr s), Some m => Some (<[k := s]> m)
      | _, _ => None
      end
  end.

Definition typed_args (members : list (str * json)) : option (gmap str str) :=
  typed_members members members.

Definition typed_step (f : json * json * json * json) : option PlanStep :=
  match f with
  | (JInt vn, JStr vd, JStr vt, JObj va) =>
      match typed_args va with
      | Some a => Some {| n := vn; description := vd; tool := vt; args := a |}
      | None => None
      end
  | _ => None
  end.

Fixpoint typed_steps (fs : list (json * json * json * json))
  : option (list PlanStep) :=
  match fs with
  | [] => Some []
  | f :: fs' =>
      match typed_step f, typed_steps fs' with
      | Some s, Some ss => Some (s :: ss)
      | _, _ => None
      end
  end.

(** The arguments [Plan(...)] and the [PlanStep(...)]s are built from: the
    summary and, for each step, [n], [description], [tool] and [args], as the
    values the decoder gave, of whatever type. *)
Definition plan_arguments (data : json)
  : result error (json * list (json * json * json * json)) :=
  match data with
  | JObj m =>
      match iterate_steps (default (JArr []) (dict_get (py "steps") m)) with
      | Raise e => Raise e
      | Ok entries =>
          match steps_fields entries with
          | Raise e => Raise e
          | Ok fs =>
              Ok (default (JStr (py "No summary")) (dict_get (py "summary") m),
                  fs)
          end
      end
  | _ => Raise AttributeError
  end.

(** The [Plan] built from them, when they are of the declared types. *)
Definition typed_plan (a : json * list (json * json * json * json))
  : result error Plan :=
  match a with
  | (JStr sm, fs) =>
      match typed_steps fs with
      | Some ss => Ok {| summary := sm; steps := ss; raw_context := [] |}
      | None => Raise Untyped
      end
  | _ => Raise Untyped
  end.

(** [_parse_plan_json] up to the arguments of the constructors. *)
Definition parse_plan_arguments (raw : str)
  : result error (json * list (json * json * json * json)) :=
  match search_braces (strip_fences raw) with
  | None =>
      Raise (Raised (Exn ValueError
               (py "No JSON object found in model output:" ++ [NL]
                ++ take 500 raw)))
  | Some span =>
      match loads span with
      | None => Raise JSONDecodeError
      | Some data => plan_arguments data
      end
  end.

Definition _parse_plan_json (raw : str) : result error Plan :=
  match parse_plan_arguments raw with
  | Raise e => Raise e
  | Ok a => typed_plan a
  end.

Section WithEnv.
Context (E : Env).

Definition generate_plan (task context_path : str) (model : option str)
  : M error Plan :=
  fun st =>
    let context := _collect_repo_context E context_path in
    let st' := log (EvChat task context_path) st in
    match stream_chat E (count is_chat st) task context_path model with
    | Raise e => (Raise (Raised e), st')
    | Ok raw =>
        match _parse_plan_json raw with
        | Raise e => (Raise e, st')
        | Ok plan =>
            (Ok {| summary := summary plan; steps := steps plan;
                   raw_context := context |}, st')
        end
    end.

End WithEnv.
End Planner.

(** ** nvcli/agent/executor.py *)

Module Executor.
Import Tools Planner.

Record ExecutionResult := {
  step : PlanStep;
  output : str;
  skipped : bool;
  aborted : bool
}.

(** [step.args.get(key, default)] *)
Definition args_get (s : PlanStep) (key dflt : str) : str :=
  default dflt (args s !! key).

Section WithEnv.
Context (E : Env).

Definition _execute_tool (s : PlanStep) : State -> str * State :=
  match TOOL_MAP !! tool s with
  | None => fun st => (py "Unknown tool: " ++ tool s, st)
  | Some tool_fn =>
      try_except
        (if decide (tool s = py "read_file") then
           read_file E (args_get s (py "path") [])
         else if decide (tool s = py "write_file") then
           let content_hint := args_get s (py "content_hint") [] in
           let path := args_get s (py "path") [] in
           let content := args_get s (py "content") content_hint in
           if bool_decide (content = []) || bool_decide (content = content_hint)
           then
             ret (py "Skipped write_file(" ++ path
                  ++ py "): content generation requires model call (Task 5)")
           else write_file E path content false
         else if decide (tool s = py "search_files") then
           search_files E (args_get s (py "pattern") (py "*"))
                          (args_get s (py "path") (py "."))
         else if decide (tool s = py "run_cmd") then
           let command := args_get s (py "command") [] in
           let* ran := run_cmd E command (py ".") true false in
           let '(exit_code, stdout, stderr) := ran in
           ret (py "exit_code=" ++ str_of_int exit_code ++ [NL]
                ++ py "stdout=" ++ take 500 stdout ++ [NL]
                ++ py "stderr=" ++ take 200 stderr)
         else ret (py "Tool '" ++ tool s ++ py "' not yet implemented"))
        (fun e => py "Error in " ++ tool s ++ py ": " ++ exn_msg e)
  end.

(** [Prompt.ask(f"[bold]Step {step.n}/{total}[/bold]", choices=["y", "n", "a"])] *)
Definition Prompt_ask (s : PlanStep) (total : nat) : State -> Choice * State :=
  fun st =>
    let choice := prompt_ask E (count is_prompt_ask st) in
    (choice,
     log (EvPromptAsk (py "[bold]Step " ++ str_of_int (n s) ++ py "/"
                       ++ str_of_int (Z.of_nat total) ++ py "[/bold]") choice)
         st).

(** The [for] loop of [execute_plan], with its two lists. *)
Fixpoint run_steps (dry_run : bool) (total : nat) (todo : list PlanStep)
    (results : list ExecutionResult) (changed_files : list str) (st : State)
  : list ExecutionResult * list str * State :=
  match todo with
  | [] => (results, changed_files, st)
  | s :: todo' =>
      if dry_run then
        run_steps dry_run total todo'
          (results ++ [{| step := s; output := py "dry-run";
                          skipped := true; aborted := false |}])
          changed_files st
      else
        let '(choice, st1) := Prompt_ask s total st in
        match choice with
        | ChoiceA =>
            (results ++ [{| step := s; output := py "aborted";
                            skipped := false; aborted := true |}],
             changed_files, st1)
        | ChoiceN =>
            run_steps dry_run total todo'
              (results ++ [{| step := s; output := py "skipped";
                              skipped := true; aborted := false |}])
              changed_files st1
        | ChoiceY =>
            let '(out, st2) := _execute_tool s st1 in
            run_steps dry_run total todo'
              (results ++ [{| step := s; output := out;
                              skipped := false; aborted := false |}])
              (if bool_decide (tool s = py "write_file")
                  && contains (py "Written:") out
               then changed_files ++ [args_get s (py "path") (py "unknown")]
               else changed_files)
              st2
        end
  end.

Definition execute_plan (plan : Plan) (dry_run : bool)
  : State -> list ExecutionResult * State :=
  fun st =>
    let '(results, changed_files, st') :=
      run_steps dry_run (length (steps plan)) (steps plan) [] [] st in
    (results, log (EvSummary changed_files) st').

End WithEnv.
End Executor.

(** ** nvcli/commands/run.py: the fix loop *)

Module Run.
Import Tools Planner Executor.


Section WithEnv.
Context (E : Env).

(** [typer.confirm(prompt, default=True)] *)
Definition confirm (prompt : str) : State -> bool * State :=
  fun st =>
    let answer := typer_confirm E (count is_typer_confirm st) in
    (answer, log (EvTyperConfirm prompt answer) st).

(** [except (ValueError, RuntimeError)] *)
Definition caught (e : error) : bool :=
  match e with
  | Raised (Exn ValueError _) => true
  | Raised (Exn RuntimeError _) => true
  | JSONDecodeError => true
  | _ => false
  end.

Definition fix_task (original_command failure_output : str) : str :=
  py "Fix the following failure from running `" ++ original_command
  ++ py "`:" ++ [NL; NL] ++ failure_output ++ [NL; NL]
  ++ py "Analyze the error, find the root cause, and fix it.".

(** The failure text built from the two streams of a run. *)
Definition combined_output (stdout stderr : str) : str :=
  (match stdout with [] => [] | _ => py "STDOUT:" ++ [NL] ++ stdout ++ [NL] end)
  ++ (match stderr with [] => [] | _ => py "STDERR:" ++ [NL] ++ stderr ++ [NL] end).

(** The [for iteration in range(1, max_iterations + 1)] loop with what
    follows it; [remaining] iterations are left, the next one is number
    [iteration].  What [generate_plan] raises and the [except] clause does
    not catch goes up to the caller, and so does what the rerun raises; a
    plan outside the typed records ([Untyped]) ends the modelled run in the
    same way. *)
Fixpoint fix_iterations (remaining : nat) (iteration max_iterations : Z)
    (original_command failure_output context : str) (st : State)
  : result error unit * State :=
  match remaining with
  | O => (Ok tt, log (EvStatus (CouldNotFix max_iterations)) st)
  | S remaining' =>
      let st := log (EvStatus (FixIteration iteration max_iterations)) st in
      let task := fix_task original_command failure_output in
      match generate_plan E task context None st with
      | (Raise e, st) =>
          if caught e then (Ok tt, log (EvStatus (CouldNotGeneratePlan e)) st)
          else (Raise e, st)
      | (Ok plan, st) =>
          let '(confirmed, st) :=
            confirm (py "Execute fix plan (iteration " ++ str_of_int iteration
                     ++ py ")?") st in
          if negb confirmed then (Ok tt, log (EvStatus FixLoopCancelled) st)
          else
            let '(results, st) := execute_plan E plan false st in
            let st := log (EvStatus (Rerunning original_command)) st in
            match run_cmd E original_command context true true st with
            | (Raise e, st) => (Raise (Raised e), st)
            | (Ok (exit_code, stdout, stderr), st) =>
                if (exit_code =? 0)%Z then
                  (Ok tt, log (EvStatus (FixedAfter iteration)) st)
                else
                  let st := log (EvStatus (StillFailing iteration)) st in
                  fix_iterations remaining' (iteration + 1) max_iterations
                    original_command (combined_output stdout stderr) context st
            end
      end
  end.

Definition _fix_loop (original_command failure_output context : str)
    (max_iterations : Z) : State -> result error unit * State :=
  fix_iterations (Z.to_nat max_iterations) 1 max_iterations
    original_command failure_output context.


End WithEnv.
End Run.

Import Tools Planner Executor Run.

(** ** nvcli/commands/code.py *)

Module Code.


Section WithEnv.
Context (E : Env).




End WithEnv.
End Code.

(** ** nvcli/commands/patch.py *)

Module Patch.
Section WithEnv.
Context (E : Env).

(** [nv patch preview]: the two texts handed to [show_diff], if the file
    has a pending entry. *)
Definition preview (file : str) (st : State) : option (str * str) :=
  get_pending_diff E file st.

(** [nv patch apply]: [typer.confirm] without a default, then the write
    with [skip_confirm=True] and the removal of the entry.  What the write
    raises goes up, and the entry stays.  The result says whether the line
    ["Applied patch to ..."] is printed. *)
Definition apply (file : str) : State -> result exn bool * State :=
  fun st =>
    match get_pending_diff E file st with
    | None => (Ok false, st)
    | Some (original, new) =>
        let '(confirmed, st) :=
          confirm E (py "Apply changes to " ++ file ++ py "?") st in
        if confirmed then
          match write_file E file new true st with
          | (Raise e, st) => (Raise e, st)
          | (Ok _, st) => (Ok true, clear_pending E (Some file) st)
          end
        else (Ok false, st)
    end.

End WithEnv.
End Patch.

Import Code.

(** ** nvcli/agent/planner.py: the file tree of the repository *)

Module RepoContext.

(** What [is_file()] and [is_dir()] say of an entry. *)
Inductive Kind := RegularFile | Directory | Other.

(** What the walk sees of the repository: [iterdir] of the directory
    reached from the root through these names, as the names and kinds of
    its entries in the order the system gives them, or [None] when listing
    the directory or looking at its entries raises [OSError]. *)
Record Repo := {
  iterdir : list str -> option (list (str * Kind))
}.

(** [s.endswith(suffix)] *)
Definition endswith (s suffix : str) : bool := startswith (rev s) (rev suffix).

(** [a < b] on strs: by code points, a proper prefix first. *)
Fixpoint str_lt (a b : str) : bool :=
  match a, b with
  | _, [] => false
  | [], _ :: _ => true
  | x :: a', y :: b' => (x <? y)%N || ((x =? y)%N && str_lt a' b')
  end.

Definition is_file (entry : str * Kind) : bool :=
  match entry.2 with RegularFile => true | _ => false end.

(** [<] on the sort key [(p.is_file(), p.name)]. *)
Definition key_lt (e1 e2 : str * Kind) : bool :=
  match is_file e1, is_file e2 with
  | false, true => true
  | true, false => false
  | _, _ => str_lt e1.1 e2.1
  end.

(** [sorted(entries, key=...)]: the stable sort by that key. *)
Fixpoint insert_sorted (e : str * Kind) (l : list (str * Kind))
  : list (str * Kind) :=
  match l with
  | [] => [e]
  | x :: l' => if key_lt x e then x :: insert_sorted e l' else e :: l
  end.

Definition sorted (l : list (str * Kind)) : list (str * Kind) :=
  foldr insert_sorted [] l.

Definition skip : list str :=
  [py ".git"; py "__pycache__"; py ".venv"; py "venv"; py "node_modules";
   py ".mypy_cache"; py ".pytest_cache"; py "*.egg-info"; py "dist";
   py "build"; py ".ruff_cache"; py ".tox"].

(** The two tests that make the loop pass over an entry. *)
Definition passed_over (name : str) : bool :=
  bool_decide (name ∈ skip) || endswith name (py ".egg-info")
  || startswith name (py ".") && negb (bool_decide (name = py ".env")).

(** The connectors and extensions of the tree, each of four characters:
    a corner or a tee with two dashes and a space, four spaces, a bar with
    three spaces. *)
Definition CORNER : str := [9492; 9472; 9472; 32]%N.
Definition TEE : str := [9500; 9472; 9472; 32]%N.
Definition BLANK : str := py "    ".
Definition BAR : str := [9474; 32; 32; 32]%N.

Section WithRepo.
Context (R : Repo).

(** [entry == entries[-1]]: paths in one directory are equal when their
    names are. *)
Definition is_last (entries : list (str * Kind)) (entry : str * Kind) : bool :=
  match last entries with
  | Some l => bool_decide (entry.1 = l.1)
  | None => false
  end.

(** The lines [_build_tree] appends when [levels] more levels may be
    entered, that is with [depth = max_depth + 1 - levels]. *)
Fixpoint tree_lines (levels : nat) (path : list str) (prefix : str) : list str :=
  match levels with
  | O => []
  | S levels' =>
      match iterdir R path with
      | None => []
      | Some listing =>
          let entries := sorted listing in
          flat_map
            (fun entry =>
               if passed_over entry.1 then []
               else
                 (prefix ++ (if is_last entries entry then CORNER else TEE)
                  ++ entry.1)
                 :: match entry.2 with
                    | Directory =>
                        tree_lines levels' (path ++ [entry.1])
                          (prefix
                           ++ (if is_last entries entry then BLANK else BAR))
                    | _ => []
                    end)
            entries
      end
  end.

(** [_build_tree(path, lines, prefix, depth, max_depth)], as the lines it
    appends to [lines]. *)
Definition _build_tree (path : list str) (prefix : str) (depth max_depth : nat)
  : list str :=
  tree_lines (S max_depth - depth) path prefix.

End WithRepo.
End RepoContext.

(** ** nvcli/commands/logs.py: the excerpt of the log *)

Module Logs.

(** [l[start:]] for an int [start]: a negative one counts from the end and
    stops at the beginning. *)
Definition slice_from {A} (start : Z) (l : list A) : list A :=
  if (start <? 0)%Z
  then drop (Z.to_nat (Z.max 0 (start + Z.of_nat (length l)))) l
  else drop (Z.to_nat start) l.

(** The lines of the log that [_analyze_async] keeps for [--tail]. *)
Definition excerpt_lines (content : str) (tail : Z) : list str :=
  let lines := splitlines content in
  if (tail <? Z.of_nat (length lines))%Z then slice_from (- tail) lines
  else lines.

(** [log_excerpt], the text put into the prompt. *)
Definition log_excerpt (content : str) (tail : Z) : str :=
  join [NL] (excerpt_lines content tail).

End Logs.

(** ** json.dumps

    The encoder of Python's standard library as [save_session] calls it,
    with [indent=2] and [ensure_ascii=False], on the values [json.loads]
    gives.  A float is written by Python in the shortest form that reads
    back as the same float; here its literal is written as it was read, so
    what is proved about the text concerns values without floats. *)

Module Dumps.

(** A hexadecimal digit, in lower case. *)
Definition hexdigit (d : N) : N := (if d <? 10 then 48 + d else 87 + d)%N.

(** What [encode_basestring] puts for one character: the quote, the
    backslash and the characters below the space are escaped, the rest is
    left as it is. *)
Definition escape_char (c : N) : str :=
  if (c =? QUOTE)%N then [BACKSLASH; QUOTE]
  else if (c =? BACKSLASH)%N then [BACKSLASH; BACKSLASH]
  else if (c =? 8)%N then [BACKSLASH; 98%N]
  else if (c =? 12)%N then [BACKSLASH; 102%N]
  else if (c =? 10)%N then [BACKSLASH; 110%N]
  else if (c =? 13)%N then [BACKSLASH; 114%N]
  else if (c =? 9)%N then [BACKSLASH; 116%N]
  else if (c <? 32)%N then
    [BACKSLASH; 117%N; 48%N; 48%N; hexdigit (c / 16); hexdigit (c mod 16)]
  else [c].

Definition encode_basestring (s : str) : str :=
  QUOTE :: flat_map escape_char s ++ [QUOTE].

(** A line feed and the indentation of a nesting level. *)
Definition newline_indent (level : nat) : str := NL :: repeat 32%N (2 * level).

(** The text of a value at a nesting level: an empty list or dict on one
    line, the items of the others one per line, separated by a comma, a
    key and its value by a colon and a space. *)
Fixpoint iterencode (level : nat) (v : json) : str :=
  match v with
  | JNull => py "null"
  | JBool true => py "true"
  | JBool false => py "false"
  | JInt z => str_of_int z
  | JFloat literal => literal
  | JStr s => encode_basestring s
  | JArr [] => py "[]"
  | JArr items =>
      py "[" ++ newline_indent (S level)
      ++ join (py "," ++ newline_indent (S level))
           (map (iterencode (S level)) items)
      ++ newline_indent level ++ py "]"
  | JObj [] => py "{}"
  | JObj members =>
      py "{" ++ newline_indent (S level)
      ++ join (py "," ++ newline_indent (S level))
           (map (fun '(key, value) =>
                   encode_basestring key ++ py ": "
                   ++ iterencode (S level) value)
              members)
      ++ newline_indent level ++ py "}"
  end.

(** [json.dumps(v, indent=2, ensure_ascii=False)] *)
Definition dumps (v : json) : str := iterencode 0 v.

End Dumps.

(** ** nvcli/agent/memory.py *)

Module Memory.
Import Dumps.

(** What the sessions need of their surroundings: the path of the file of
    a session, [str(_get_session_path(name))]; the clock,
    [datetime.now().isoformat()]; the [OSError] text when the file of a
    session cannot be opened for writing. *)
Record Sessions := {
  session_path : str -> str;
  now_isoformat : str;
  open_fault : str -> option str
}.

(** What [save_session] can raise. *)
Inductive save_error :=
| SaveOSError (msg : str)
| UnicodeEncodeError.

(** The code points UTF-8 does not encode. *)
Definition is_surrogate (c : N) : bool := ((55296 <=? c) && (c <=? 57343))%N.

Section WithSessions.
Context (S : Sessions).

(** The files of the sessions, by path. *)
Definition Files := gmap str Node.

(** [load_session(name)]: the list, or whatever the file holds under
    ["messages"].  [JSONDecodeError] and [OSError] give the empty list;
    [.get] on a decoded number, str, bool or [None] raises
    [AttributeError], which is not caught. *)
Definition load_session (name : str) (files : gmap str Node) : result error json :=
  match files !! session_path S name with
  | None => Ok (JArr [])
  | Some (Unreadable _) => Ok (JArr [])
  | Some (File stored) =>
      match loads (universal_newlines stored) with
      | None => Ok (JArr [])
      | Some (JArr items) => Ok (JArr items)
      | Some (JObj members) =>
          Ok (default (JArr []) (dict_get (py "messages") members))
      | Some _ => Raise AttributeError
      end
  end.

(** The dict [save_session] writes. *)
Definition session_data (messages : list json) (name : str) : json :=
  JObj [(py "name", JStr name);
        (py "saved_at", JStr (now_isoformat S));
        (py "message_count", JInt (Z.of_nat (length messages)));
        (py "messages", JArr messages)].

(** [save_session(messages, name)]: the file is opened for writing, which
    empties it, and the text is written in one piece; a text with a
    surrogate cannot be encoded, and then nothing is written. *)
Definition save_session (messages : list json) (name : str)
    (files : gmap str Node) : result save_error unit * gmap str Node :=
  let path := session_path S name in
  let text := dumps (session_data messages name) in
  match open_fault S path with
  | Some msg => (Raise (SaveOSError msg), files)
  | None =>
      if existsb is_surrogate text
      then (Raise UnicodeEncodeError, <[path := File []]> files)
      else (Ok tt, <[path := File text]> files)
  end.

(** [clear_session(name)] *)
Definition clear_session (name : str) (files : gmap str Node) : gmap str Node :=
  delete (session_path S name) files.

End WithSessions.
End Memory.

(** ** Observing a run *)

(** [st'] comes after [st]: the trace has grown by events that all satisfy
    [allowed]. *)
Definition grows_by (allowed : Event -> bool) (st st' : State) : Prop :=
  exists evs, trace st' = trace st ++ evs /\ forallb allowed evs = true.

(** The events a tool can add to the trace. *)
Definition tool_event (e : Event) : bool :=
  is_confirm_ask e || is_spawn e || is_glob e || is_write e.




(** The events the loop over the steps can add to the trace. *)
Definition step_event (e : Event) : bool := tool_event e || is_prompt_ask e.


(** Where a character of a JSON text lies: outside the string literals, in
    one, or in one just after a backslash. *)
Inductive Lex := LexOut | LexIn | LexEsc.

(** One character further.  There is no step for a backquote outside the
    string literals, nor for a control character in one. *)
Definition lex_step (l : Lex) (c : N) : option Lex :=
  match l with
  | LexOut =>
      if (c =? 96)%N then None
      else if (c =? QUOTE)%N then Some LexIn else Some LexOut
  | LexIn =>
      if (c <? 32)%N then None
      else if (c =? BACKSLASH)%N then Some LexEsc
      else if (c =? QUOTE)%N then Some LexOut else Some LexIn
  | LexEsc => if (c <? 32)%N then None else Some LexIn
  end.

Fixpoint lex_run (l : Lex) (s : str) : option Lex :=
  match s with
  | [] => Some l
  | c :: s' =>
      match lex_step l c with
      | Some l' => lex_run l' s'
      | None => None
      end
  end.

(** [s] is [rest] after a piece that the walk above crosses from [l] to
    the outside of the string literals. *)
Definition crosses (l : Lex) (s rest : str) : Prop :=
  exists p, s = p ++ rest /\ lex_run l p = Some LexOut.

(** Characters that keep the walk outside the string literals. *)
Definition plain (c : N) : bool := negb (c =? 96)%N && negb (c =? QUOTE)%N.

(** The character before a position: the last of what has been passed, or
    [prev0] when nothing has. *)
Definition prev_of (prev0 : option N) (passed : str) : option N :=
  match last passed with
  | Some x => Some x
  | None => prev0
  end.

(** The characters a fence can be made of. *)
Definition fence_char (c : N) : bool :=
  (c =? 96)%N || isspace c || (c =? 106)%N || (c =? 115)%N || (c =? 111)%N
  || (c =? 110)%N.

(** A match is made of fence characters and lies in the text. *)
Definition fence_like (m : option N -> str -> option nat) : Prop :=
  forall prev s k, m prev s = Some k ->
    k <= length s /\ forallb fence_char (take k s) = true.

(** The map [a] holds what the dict of the object with these members
    holds: the same keys, and for each the str that is its value. *)
Definition args_match (members : list (str * json)) (a : gmap str str) : Prop :=
  forall k, dict_get k members = JStr <$> (a !! k).

(** A step object: it has [n], [description] and [tool]; these and its
    [args], or an empty object when it has none, are the four values. *)
Definition has_fields (entry : json) (f : json * json * json * json) : Prop :=
  exists m,
    entry = JObj m /\
    dict_get (py "n") m = Some f.1.1.1 /\
    dict_get (py "description") m = Some f.1.1.2 /\
    dict_get (py "tool") m = Some f.1.2 /\
    f.2 = default (JObj []) (dict_get (py "args") m).

(** The four values are of the declared types and [s] holds them: an int
    [n], a str [description], a str [tool], and an object of strs. *)
Definition holds (f : json * json * json * json) (s : PlanStep) : Prop :=
  f.1.1.1 = JInt (n s) /\
  f.1.1.2 = JStr (description s) /\
  f.1.2 = JStr (tool s) /\
  exists am, f.2 = JObj am /\ args_match am (args s).


(** A line: a text without any of the boundaries of [str.splitlines]. *)
Definition no_linebreak (l : str) : Prop :=
  forallb (fun c => negb (is_linebreak c)) l = true.

(** [st'] differs from [st] by its trace at most: the files and the pending
    writes are the same. *)
Definition only_logged (st st' : State) : Prop :=
  fs st' = fs st /\ _pending_writes st' = _pending_writes st.

(** The lines of the listing [search_files] gives for these matches. *)
Definition listed_lines (matches : list str) : list str :=
  (py "Found " ++ str_of_int (Z.of_nat (length matches)) ++ py " file(s):")
  :: map (fun m => py "  " ++ m) (take 50 matches)
  ++ (if 50 <? length matches
      then [py "  ... and " ++ str_of_int (Z.of_nat (length matches) - 50)
            ++ py " more"]
      else []).





(** The names [sub] lead from the directory at [path] down through
    directories that the walk enters: each is a directory of the one
    before and is not passed over. *)
Inductive enters (R : RepoContext.Repo) : list str -> list str -> Prop :=
| enters_here path : enters R path []
| enters_down path name listing sub :
    RepoContext.iterdir R path = Some listing ->
    (name, RepoContext.Directory) ∈ listing ->
    RepoContext.passed_over name = false ->
    enters R (path ++ [name]) sub ->
    enters R path (name :: sub).

(** [name] is an entry, not passed over, of the directory that [sub] leads
    to from [path]. *)
Definition shown (R : RepoContext.Repo) (path sub : list str) (name : str)
  : Prop :=
  enters R path sub /\
  exists listing kind,
    RepoContext.iterdir R (path ++ sub) = Some listing /\
    (name, kind) ∈ listing /\
    RepoContext.passed_over name = false.

(** A value without floats. *)
Fixpoint float_free (v : json) : bool :=
  match v with
  | JFloat _ => false
  | JArr items => forallb float_free items
  | JObj members => forallb (fun '(_, value) => float_free value) members
  | _ => true
  end.

(** One more digit at the right of an int. *)
Definition digit_step (acc : Z) (d : N) : Z := (acc * 10 + Z.of_N (d - 48)%N)%Z.

(** What may follow an int in a text so that the number ends there. *)
Definition ends_number (rest : str) : Prop :=
  match rest with
  | [] => True
  | c :: _ => is_digit c = false /\ c <> 46%N /\ c <> 101%N /\ c <> 69%N
  end.

(** What follows a value in a text that [json.dumps] writes: nothing, a
    comma or a line feed. *)
Definition delimited (rest : str) : Prop :=
  match rest with
  | [] => True
  | c :: _ => c = 44%N \/ c = NL
  end.

(** The characters a written value can begin with. *)
Definition value_start (c : N) : bool :=
  (c =? QUOTE)%N || (c =? 91)%N || (c =? 123)%N || (c =? 110)%N
  || (c =? 116)%N || (c =? 102)%N || is_digit c || (c =? 45)%N.

(** ** Sample worlds *)

(** A working directory [/repo] (a leading [./] of a path is dropped when
    it is resolved), an operator who declines every confirmation and aborts
    at the third step prompt, a shell in which every command fails, an allowlist that
    holds [pytest], and a model that always answers with the same one-step
    plan. *)
Definition quote_json (s : string) : str :=
  map (fun c => if (c =? 39)%N then QUOTE else c) (py s).

(** A plan with one step, as the model may send it. *)
Definition demo_json : str :=
  quote_json
    "{'summary': 'demo', 'steps': [{'n': 1, 'description': 'read main', 'tool': 'read_file', 'args': {'path': 'main.py'}}]}".

Definition demo_plan : Plan :=
  {| summary := py "demo";
     steps := [{| n := 1; description := py "read main"; tool := py "read_file";
                  args := <[py "path" := py "main.py"]> ∅ |}];
     raw_context := [] |}.

(** The same plan in a reply with prose and a code fence around it. *)
Definition demo_reply : str :=
  py "Here is the plan:" ++ [NL] ++ py "```json" ++ [NL]
  ++ demo_json
  ++ [NL] ++ py "```" ++ [NL] ++ py "Let me know if it works.".

Definition demo_env : Env := {|
  resolve := fun p =>
    py "/repo/" ++ (if startswith p (py "./") then drop 2 p else p);
  command_allowlist := [py "pytest"];
  confirm_ask := fun _ => false;
  prompt_ask := fun k => if Nat.eqb k 2 then ChoiceA else ChoiceY;
  typer_confirm := fun _ => true;
  shell := fun _ _ _ => Exited 1 (py " 1 failed ") [];
  glob := fun _ _ _ => Ok [];
  write_fault := fun _ => None;
  stream_chat := fun _ _ _ _ => Ok demo_reply;
  _collect_repo_context := fun _ => []
|}.

(** [k] lines, each ending in a line feed. *)
Definition lines_file (k : nat) : str := concat (repeat (py "x" ++ [NL]) k).

Definition demo_state : State := {|
  fs := <[py "/repo/a.txt" := File (py "v0")]>
        (<[py "/repo/500.txt" := File (lines_file 500)]>
         (<[py "/repo/501.txt" := File (lines_file 501)]> ∅));
  _pending_writes := ∅;
  trace := []
|}.



(** A second world: the operator agrees to everything, every command
    succeeds except in the directory [gone], which is not there, and only
    the search below the directories finds files. *)
Definition willing_env : Env := {|
  resolve := resolve demo_env;
  command_allowlist := [];
  confirm_ask := fun _ => true;
  prompt_ask := fun _ => ChoiceY;
  typer_confirm := fun _ => true;
  shell := fun _ _ cwd =>
    if bool_decide (cwd = py "gone") then SpawnFileNotFound
    else Exited 0 (py "ok") [];
  glob := fun _ _ pattern =>
    if startswith pattern (py "**/") then Ok [py "src/a.py"; py "src/b.py"]
    else Ok [];
  write_fault := fun _ => None;
  stream_chat := fun _ _ _ _ => Ok demo_reply;
  _collect_repo_context := fun _ => []
|}.

(** A reply whose only step has no number. *)
Definition reply_without_n : str :=
  quote_json
    "{'summary': 'demo', 'steps': [{'description': 'read main', 'tool': 'read_file'}]}".


(** A small repository: at the root [README.md], the directories [.git]
    and [src] and the file [setup.egg-info]; in [src] the file [main.py]. *)
Definition demo_repo : RepoContext.Repo := {|
  RepoContext.iterdir := fun path =>
    if bool_decide (path = []) then
      Some [(py "README.md", RepoContext.RegularFile);
            (py ".git", RepoContext.Directory);
            (py "src", RepoContext.Directory);
            (py "setup.egg-info", RepoContext.RegularFile)]
    else if bool_decide (path = [py "src"]) then
      Some [(py "main.py", RepoContext.RegularFile)]
    else None
|}.

(** * Properties *)

(** ** Strings *)

Lemma startswith_spec (s prefix : str) :
  startswith s prefix = true <-> exists rest, s = prefix ++ rest.
Proof.
  revert s. induction prefix as [|p prefix IH]; intros s.
  - destruct s; simpl; split; eauto.
  - destruct s as [|c s]; simpl.
    + split; [done | intros [rest Hrest]; discriminate].
    + rewrite andb_true_iff, N.eqb_eq, IH. split.
      * intros [-> [rest ->]]. by exists rest.
      * intros [rest Hrest]. injection Hrest as -> ->. split; [done | by exists rest].
Qed.

(** ** The trace *)

Lemma count_log (kind : Event -> bool) (e : Event) (st : State) :
  count kind (log e st) = count kind st + (if kind e then 1 else 0).
Proof.
  unfold count, log; simpl. rewrite List.filter_app, length_app; simpl.
  by destruct (kind e).
Qed.


Lemma grows_by_refl allowed st : grows_by allowed st st.
Proof. exists []. by rewrite app_nil_r. Qed.

Lemma grows_by_trans allowed st1 st2 st3 :
  grows_by allowed st1 st2 -> grows_by allowed st2 st3 -> grows_by allowed st1 st3.
Proof.
  intros (e1 & H1 & A1) (e2 & H2 & A2). exists (e1 ++ e2). split.
  - by rewrite H2, H1, app_assoc.
  - by rewrite forallb_app, A1, A2.
Qed.

Lemma grows_by_log (allowed : Event -> bool) e st :
  allowed e = true -> grows_by allowed st (log e st).
Proof. intros H. exists [e]. simpl. by rewrite H. Qed.

Lemma grows_by_weaken (allowed allowed' : Event -> bool) st st' :
  (forall e, allowed e = true -> allowed' e = true) ->
  grows_by allowed st st' -> grows_by allowed' st st'.
Proof.
  intros Himp (evs & Htr & Hall). exists evs. split; [done|].
  rewrite forallb_forall in *. auto.
Qed.

Lemma grows_by_count (allowed kind : Event -> bool) st st' :
  (forall e, allowed e = true -> kind e = false) ->
  grows_by allowed st st' -> count kind st' = count kind st.
Proof.
  intros Hdisj (evs & Htr & Hall). unfold count. rewrite Htr, List.filter_app, length_app.
  assert (List.filter kind evs = []) as ->; [|simpl; lia].
  clear Htr. induction evs as [|e evs IH]; [done|]. simpl in *.
  apply andb_true_iff in Hall as [He Hall]. rewrite (Hdisj e He). auto.
Qed.

(** ** The tools *)

Section ToolFacts.
Context (E : Env).

Lemma spawn_and_collect_grows command cwd capture st :
  grows_by is_spawn st (spawn_and_collect E command cwd capture st).2.
Proof.
  unfold spawn_and_collect.
  destruct (shell E _ command cwd) as [rc out err| |e]; simpl;
    [| destruct (first_word command) |]; simpl; by apply grows_by_log.
Qed.


End ToolFacts.

(** ** read_file *)

(** C9. On an existing, readable file of exactly 500 lines [read_file]
    returns the content as read, with nothing added; on a file of more than
    500 lines it returns the first 500 lines joined by line feeds, followed
    by the notice that states how many lines were left out, which is 1 for a
    file of 501 lines. *)
Theorem read_file_truncation_boundary (E : Env) (path stored : str) (st : State) :
  fs st !! resolve E path = Some (File stored) ->
  let content := universal_newlines stored in
  let lines := splitlines content in
  (length lines = 500 -> read_file E path st = (Ok content, st)) /\
  (500 < length lines ->
   read_file E path st
   = (Ok (join [NL] (take 500 lines) ++ [NL] ++ py "... [truncated, "
          ++ str_of_int (Z.of_nat (length lines - 500)) ++ py " more lines]"),
      st)) /\
  (length lines = 501 ->
   read_file E path st
   = (Ok (join [NL] (take 500 lines) ++ [NL]
          ++ py "... [truncated, 1 more lines]"), st)).
Proof.
  intros Hfile content lines. unfold read_file. rewrite Hfile.
  fold content. fold lines.
  assert (Hgt : 500 < length lines ->
          (if 500 <? length lines
           then (Ok (join [NL] (take 500 lines) ++ [NL] ++ py "... [truncated, "
                     ++ str_of_int (Z.of_nat (length lines) - 500)
                     ++ py " more lines]"), st)
           else (@Ok exn str content, st))
          = (Ok (join [NL] (take 500 lines) ++ [NL] ++ py "... [truncated, "
                 ++ str_of_int (Z.of_nat (length lines - 500))
                 ++ py " more lines]"), st)).
  { intros Hlen. apply Nat.ltb_lt in Hlen as Hb. rewrite Hb.
    by replace (Z.of_nat (length lines) - 500)%Z
         with (Z.of_nat (length lines - 500)) by lia. }
  repeat split.
  - intros Hlen. by rewrite Hlen.
  - exact Hgt.
  - intros Hlen. rewrite Hgt by lia. by rewrite Hlen.
Qed.

Lemma read_file_truncation_boundary_example :
  read_file demo_env (py "500.txt") demo_state
  = (Ok (lines_file 500), demo_state) /\
  read_file demo_env (py "501.txt") demo_state
  = (Ok (join [NL] (repeat (py "x") 500) ++ [NL]
         ++ py "... [truncated, 1 more lines]"), demo_state).
Proof.
  split.
  - apply (read_file_truncation_boundary demo_env (py "500.txt") (lines_file 500)
             demo_state); vm_compute; reflexivity.
  - apply (read_file_truncation_boundary demo_env (py "501.txt") (lines_file 501)
             demo_state); vm_compute; reflexivity.
Defined.

(** ** run_cmd *)

Section RunCmdFacts.
Context (E : Env).

Lemma run_cmd_unprompted command cwd capture skip_confirm st :
  skip_confirm = true \/ in_allowlist E command = true ->
  run_cmd E command cwd capture skip_confirm st
  = spawn_and_collect E command cwd capture st.
Proof.
  unfold run_cmd. intros [-> | ->]; [done|]. by rewrite andb_false_r.
Qed.

Lemma run_cmd_prompted command cwd capture st :
  in_allowlist E command = false ->
  run_cmd E command cwd capture false st
  = let answer := confirm_ask E (count is_confirm_ask st) in
    let st1 := log (EvConfirmAsk (py "Execute?") answer) st in
    if answer then spawn_and_collect E command cwd capture st1
    else (Ok (0%Z, [], py "skipped"), st1).
Proof.
  unfold run_cmd. intros ->. simpl. unfold bind, Confirm_ask.
  by destruct (confirm_ask E _).
Qed.

Lemma run_cmd_grows command cwd capture skip_confirm st :
  grows_by (fun e => is_confirm_ask e || is_spawn e) st
    (run_cmd E command cwd capture skip_confirm st).2.
Proof.
  assert (Hsp : forall st,
    grows_by (fun e => is_confirm_ask e || is_spawn e) st
      (spawn_and_collect E command cwd capture st).2).
  { intros st0. eapply grows_by_weaken; [|apply spawn_and_collect_grows].
    intros e ->. apply orb_true_r. }
  destruct skip_confirm; [rewrite run_cmd_unprompted by auto; apply Hsp|].
  destruct (in_allowlist E command) eqn:Hal;
    [rewrite run_cmd_unprompted by auto; apply Hsp|].
  rewrite run_cmd_prompted by done. cbv zeta.
  destruct (confirm_ask E _).
  - eapply grows_by_trans; [|apply Hsp]. by apply grows_by_log.
  - by apply grows_by_log.
Qed.


End RunCmdFacts.



(** ** write_file and the pending writes *)

Section WriteFacts.
Context (E : Env).

(** A call that answers ["Written: ..."] has gone through the write. *)
Lemma write_file_written path content skip_confirm st st' :
  write_file E path content skip_confirm st = (Ok (py "Written: " ++ path), st') ->
  fs st' = <[resolve E path := File content]> (fs st) /\
  _pending_writes st'
  = <[resolve E path := (read_original E path st, content)]> (_pending_writes st).
Proof.
  unfold write_file, commit_write, bind, Confirm_ask, ret.
  destruct (decide _) as [|Hne]; [simpl; discriminate|].
  destruct skip_confirm.
  - destruct (write_fault E _); [discriminate|]. by intros [= <-].
  - destruct (confirm_ask E _); simpl; [|discriminate].
    destruct (write_fault E _); [discriminate|]. by intros [= <-].
Qed.

Lemma write_file_grows path content skip_confirm st :
  grows_by (fun e => is_confirm_ask e || is_write e) st
    (write_file E path content skip_confirm st).2.
Proof.
  unfold write_file, commit_write, bind, Confirm_ask, ret.
  destruct (decide _); [apply grows_by_refl|].
  destruct skip_confirm.
  - destruct (write_fault E _); simpl; [apply grows_by_refl|].
    by exists [EvWrite (resolve E path) content].
  - destruct (confirm_ask E _); simpl.
    + destruct (write_fault E _); simpl.
      * by apply (grows_by_log (fun e => is_confirm_ask e || is_write e)).
      * exists [EvConfirmAsk ([NL] ++ py "Apply changes to [cyan]" ++ path
                                ++ py "[/cyan]?") true;
                  EvWrite (resolve E path) content].
        split; [simpl; by rewrite <- app_assoc | done].
    + by apply (grows_by_log (fun e => is_confirm_ask e || is_write e)).
Qed.

End WriteFacts.

(** C10. After a write that went through, [get_pending_diff] gives the
    content read before the write and the content written, for every path
    that resolves to the same file; it gives [None] for a path without an
    entry; [clear_pending] with such a path removes that entry and no other,
    and without a path empties the table. *)
Theorem pending_writes_keyed_by_resolved_path (E : Env) (p c : str)
    (skip_confirm : bool) (st st' : State) :
  write_file E p c skip_confirm st = (Ok (py "Written: " ++ p), st') ->
  (forall q, resolve E q = resolve E p ->
     get_pending_diff E q st' = Some (read_original E p st, c)) /\
  (forall (q : str) (any : State),
     resolve E q ∉ dom (_pending_writes any) -> get_pending_diff E q any = None) /\
  (forall q, resolve E q = resolve E p ->
     _pending_writes (clear_pending E (Some q) st')
     = delete (resolve E p) (_pending_writes st') /\
     get_pending_diff E p (clear_pending E (Some q) st') = None /\
     forall r, resolve E r <> resolve E p ->
       get_pending_diff E r (clear_pending E (Some q) st')
       = get_pending_diff E r st') /\
  (forall r, get_pending_diff E r (clear_pending E None st') = None).
Proof.
  intros Hw. apply write_file_written in Hw as [_ Hpend].
  unfold get_pending_diff. split; [|split; [|split]].
  - intros q ->. rewrite Hpend. apply lookup_insert_eq.
  - intros q any. apply not_elem_of_dom.
  - intros q Hq. simpl. rewrite Hq. split; [done|]. split.
    + apply lookup_delete_eq.
    + intros r Hr. by apply lookup_delete_ne.
  - intros r. apply lookup_empty.
Qed.

Lemma pending_writes_keyed_by_resolved_path_example :
  let st' := (write_file demo_env (py "a.txt") (py "v1") true demo_state).2 in
  get_pending_diff demo_env (py "./a.txt") st' = Some (py "v0", py "v1") /\
  get_pending_diff demo_env (py "a.txt")
    (clear_pending demo_env (Some (py "./a.txt")) st') = None.
Proof.
  destruct (pending_writes_keyed_by_resolved_path demo_env (py "a.txt") (py "v1")
              true demo_state
              (write_file demo_env (py "a.txt") (py "v1") true demo_state).2
              eq_refl) as (Hget & _ & Hclear & _).
  split.
  - exact (Hget (py "./a.txt") eq_refl).
  - exact (proj1 (proj2 (Hclear (py "./a.txt") eq_refl))).
Defined.




(** ** Dispatch of a plan step *)

Lemma TOOL_MAP_known (name : str) :
  name ∈ [py "read_file"; py "write_file"; py "search_files"; py "run_cmd"] ->
  is_Some (TOOL_MAP !! name).
Proof.
  rewrite !elem_of_cons, elem_of_nil.
  intros [-> | [-> | [-> | [-> | []]]]]; vm_compute; eauto.
Qed.



Ltac names_differ :=
  match goal with
  | H : py _ = py _ |- _ => vm_compute in H; discriminate H
  end.

Section DispatchFacts.
Context (E : Env).

Lemma read_file_state path st : (read_file E path st).2 = st.
Proof.
  unfold read_file. destruct (fs st !! _) as [[stored|e]|]; [|done..].
  by destruct (500 <? _).
Qed.

Lemma search_files_grows pattern path st :
  grows_by is_glob st (search_files E pattern path st).2.
Proof.
  unfold search_files, bind, sorted_glob, ret.
  repeat match goal with
         | |- context [glob E ?k ?b ?p] =>
             destruct (glob E k b p) as [[|? ?]|?]; simpl
         | |- context [50 <? ?k] => destruct (50 <? k); simpl
         end;
    try (by apply grows_by_log);
    (eapply grows_by_trans; [apply grows_by_log|apply grows_by_log]); done.
Qed.

Lemma tool_event_confirm_or_spawn e :
  is_confirm_ask e || is_spawn e = true -> tool_event e = true.
Proof. by destruct e. Qed.

Lemma tool_event_confirm_or_write e :
  is_confirm_ask e || is_write e = true -> tool_event e = true.
Proof. by destruct e. Qed.

Lemma tool_event_glob e : is_glob e = true -> tool_event e = true.
Proof. by destruct e. Qed.

Lemma try_except_grows {A} (allowed : Event -> bool) (m : M exn A)
    (h : exn -> A) st :
  grows_by allowed st (m st).2 -> grows_by allowed st (try_except m h st).2.
Proof. unfold try_except. by destruct (m st) as [[a|e] st']. Qed.

Lemma _execute_tool_grows s st :
  grows_by tool_event st (_execute_tool E s st).2.
Proof.
  unfold _execute_tool. destruct (TOOL_MAP !! tool s); [|apply grows_by_refl].
  apply try_except_grows.
  destruct (decide (tool s = py "read_file")).
  { rewrite read_file_state. apply grows_by_refl. }
  destruct (decide (tool s = py "write_file")).
  { destruct (_ || _); [apply grows_by_refl|].
    eapply grows_by_weaken; [apply tool_event_confirm_or_write|].
    apply write_file_grows. }
  destruct (decide (tool s = py "search_files")).
  { eapply grows_by_weaken; [apply tool_event_glob|]. apply search_files_grows. }
  destruct (decide (tool s = py "run_cmd")); [|apply grows_by_refl].
  unfold bind.
  pose proof (run_cmd_grows E (args_get s (py "command") []) (py ".") true
                false st) as Hg.
  destruct (run_cmd E _ _ true false st) as [[[[rc out] err]|err] st'];
    (eapply grows_by_weaken; [apply tool_event_confirm_or_spawn|exact Hg]).
Qed.

End DispatchFacts.




(** ** Dispatch of write_file and run_cmd steps *)

(** C7. For a [write_file] step, let the content be [args.content], or the
    hint when there is none.  When the content is empty or equal to the hint
    (as it is when [args] has no [content]), dispatch answers with the
    sentinel and leaves the state as it was: [write_file] is not called and
    no file changes.  Otherwise, and only then, dispatch goes to
    [write_file] with that content, and its answer or the text of its
    exception is the output. *)
Theorem write_file_step_dispatch (E : Env) (s : PlanStep) (st : State) :
  tool s = py "write_file" ->
  let content_hint := args_get s (py "content_hint") [] in
  let path := args_get s (py "path") [] in
  let content := args_get s (py "content") content_hint in
  let sentinel :=
    py "Skipped write_file(" ++ path
    ++ py "): content generation requires model call (Task 5)" in
  (content = [] \/ content = content_hint ->
   _execute_tool E s st = (sentinel, st)) /\
  (args s !! py "content" = None -> _execute_tool E s st = (sentinel, st)) /\
  (content <> [] -> content <> content_hint ->
   _execute_tool E s st
   = match write_file E path content false st with
     | (Ok out, st') => (out, st')
     | (Raise e, st') => (py "Error in write_file: " ++ exn_msg e, st')
     end).
Proof.
  intros Htool content_hint path content sentinel.
  assert (Hshape : _execute_tool E s st
    = try_except
        (if bool_decide (content = []) || bool_decide (content = content_hint)
         then ret sentinel else write_file E path content false)
        (fun e => py "Error in " ++ tool s ++ py ": " ++ exn_msg e) st).
  { unfold _execute_tool. rewrite Htool.
    change (TOOL_MAP !! py "write_file") with (Some fn_write_file).
    destruct (decide (py "write_file" = py "read_file")); [names_differ|].
    by destruct (decide (py "write_file" = py "write_file")). }
  assert (Hsent : content = [] \/ content = content_hint ->
                  _execute_tool E s st = (sentinel, st)).
  { intros Hc. rewrite Hshape.
    assert (bool_decide (content = []) || bool_decide (content = content_hint)
            = true) as ->; [|done].
    apply orb_true_iff. destruct Hc; [left|right]; by apply bool_decide_eq_true. }
  split; [exact Hsent|]. split.
  - intros Hnone. apply Hsent. right. subst content. unfold args_get at 1.
    by rewrite Hnone.
  - intros Hne Hhint. rewrite Hshape, Htool.
    rewrite !bool_decide_eq_false_2 by done. done.
Qed.

Lemma write_file_step_dispatch_example :
  let hinted := {| n := 2; description := py "add a log line";
                   tool := py "write_file";
                   args := <[py "path" := py "a.txt"]>
                           (<[py "content_hint" := py "add a log line"]> ∅) |} in
  let literal := {| n := 2; description := py "add a log line";
                    tool := py "write_file";
                    args := <[py "path" := py "a.txt"]>
                            (<[py "content" := py "v1"]> ∅) |} in
  _execute_tool demo_env hinted demo_state
  = (py "Skipped write_file(a.txt): content generation requires model call (Task 5)",
     demo_state) /\
  _execute_tool demo_env literal demo_state
  = (py "Skipped: a.txt",
     log (EvConfirmAsk ([NL] ++ py "Apply changes to [cyan]a.txt[/cyan]?") false)
         demo_state).
Proof.
  intros hinted literal. split.
  - exact (proj1 (proj2 (write_file_step_dispatch demo_env hinted demo_state
                           eq_refl)) eq_refl).
  - refine (proj2 (proj2 (write_file_step_dispatch demo_env literal demo_state
                            eq_refl)) _ _); vm_compute; discriminate.
Defined.




(** ** execute_plan *)

Section ExecuteFacts.
Context (E : Env).





End ExecuteFacts.



(** ** The fix loop *)



Section FixLoopFacts.
Context (E : Env).

Lemma run_steps_grows dry_run total todo : forall results changed_files st,
  grows_by step_event st
    (run_steps E dry_run total todo results changed_files st).2.
Proof.
  induction todo as [|s todo IH]; intros results changed st; cbn [run_steps].
  { apply grows_by_refl. }
  destruct dry_run; [apply IH|].
  destruct (Prompt_ask E s total st) as [choice st1] eqn:Hp.
  assert (H1 : grows_by step_event st st1).
  { unfold Prompt_ask in Hp. injection Hp as _ <-. by apply grows_by_log. }
  destruct choice.
  - pose proof (_execute_tool_grows E s st1) as H2.
    destruct (_execute_tool E s st1) as [out st2]. simpl in H2.
    eapply grows_by_trans; [exact H1|].
    eapply grows_by_trans; [|apply IH].
    eapply grows_by_weaken; [|exact H2]. intros e He. unfold step_event.
    by rewrite He.
  - eapply grows_by_trans; [exact H1|apply IH].
  - exact H1.
Qed.

Lemma execute_plan_grows plan dry_run st :
  grows_by (fun e => step_event e || is_summary e) st
    (execute_plan E plan dry_run st).2.
Proof.
  unfold execute_plan.
  pose proof (run_steps_grows dry_run (length (steps plan)) (steps plan) [] [] st)
    as Hg.
  destruct (run_steps E dry_run _ (steps plan) [] [] st) as [[res ch] st'].
  simpl in *. eapply grows_by_trans.
  - eapply grows_by_weaken; [|exact Hg]. by intros e ->.
  - apply grows_by_log. apply orb_true_r.
Qed.

Lemma execute_plan_summary_count plan dry_run st :
  count is_summary (execute_plan E plan dry_run st).2 = S (count is_summary st).
Proof.
  unfold execute_plan.
  pose proof (run_steps_grows dry_run (length (steps plan)) (steps plan) [] [] st)
    as Hg.
  destruct (run_steps E dry_run _ (steps plan) [] [] st) as [[res ch] st'].
  simpl in *. rewrite count_log. simpl.
  rewrite (grows_by_count step_event is_summary st st'); [lia| by intros [] |done].
Qed.


End FixLoopFacts.



(** ** The text of a JSON value *)

Ltac reassoc :=
  cbn [app];
  repeat (rewrite <- app_assoc || rewrite <- app_comm_cons);
  cbn [app]; reflexivity.

Lemma take_drop_while {A} (f : A -> bool) (l : list A) :
  l = take_while f l ++ drop_while f l.
Proof. induction l as [|x l IH]; simpl; [done|]. destruct (f x); simpl; congruence. Qed.

Lemma take_while_all {A} (f : A -> bool) (l : list A) :
  forallb f (take_while f l) = true.
Proof. induction l as [|x l IH]; simpl; [done|]. destruct (f x) eqn:Hf; simpl; by rewrite ?Hf. Qed.

Lemma lex_run_app l p q :
  lex_run l (p ++ q) = match lex_run l p with Some l' => lex_run l' q | None => None end.
Proof.
  revert l. induction p as [|c p IH]; intros l; simpl; [done|].
  by destruct (lex_step l c).
Qed.


Lemma lex_run_plain p : forallb plain p = true -> lex_run LexOut p = Some LexOut.
Proof.
  induction p as [|c p IH]; simpl; [done|].
  intros [Hc Hp]%andb_true_iff. unfold plain in Hc.
  apply andb_true_iff in Hc as [H1%negb_true_iff H2%negb_true_iff].
  rewrite H1, H2. auto.
Qed.

Lemma crosses_refl s : crosses LexOut s s.
Proof. by exists []. Qed.

Lemma crosses_trans l s1 s2 s3 :
  crosses l s1 s2 -> crosses LexOut s2 s3 -> crosses l s1 s3.
Proof.
  intros (p & -> & Hp) (q & -> & Hq). exists (p ++ q).
  split; [by rewrite app_assoc|]. by rewrite lex_run_app, Hp.
Qed.

Lemma crosses_plain p rest : forallb plain p = true -> crosses LexOut (p ++ rest) rest.
Proof. intros Hp. exists p. split; [done|]. by apply lex_run_plain. Qed.

Lemma crosses_cons_plain c rest : plain c = true -> crosses LexOut (c :: rest) rest.
Proof. intros Hc. apply (crosses_plain [c]). simpl. by rewrite Hc. Qed.

Lemma crosses_skip_ws s : crosses LexOut s (skip_ws s).
Proof.
  unfold skip_ws. rewrite (take_drop_while is_ws s) at 1. apply crosses_plain.
  pose proof (take_while_all is_ws s) as Hall.
  rewrite forallb_forall in *. intros c Hc. specialize (Hall c Hc).
  unfold is_ws in Hall. unfold plain, QUOTE.
  repeat (apply orb_true_iff in Hall as [Hall|Hall]);
    apply N.eqb_eq in Hall; by subst c.
Qed.

Lemma crosses_literal s lit :
  forallb plain lit = true -> startswith s lit = true ->
  crosses LexOut s (drop (length lit) s).
Proof.
  intros Hp [rest ->]%startswith_spec. rewrite drop_app_length.
  by apply crosses_plain.
Qed.

Lemma hexval_ge c v : hexval c = Some v -> (48 <= c)%N.
Proof.
  unfold hexval. repeat case_match; try done; intros _;
    repeat match goal with
           | H : (_ && _) = true |- _ => apply andb_true_iff in H as [? ?]
           | H : (_ <=? _)%N = true |- _ => apply N.leb_le in H
           end; lia.
Qed.

Lemma lex_step_in_content c :
  (48 <= c)%N -> c <> BACKSLASH -> lex_step LexIn c = Some LexIn.
Proof.
  intros Hge Hbs. unfold lex_step, QUOTE, BACKSLASH in *.
  destruct (c <? 32)%N eqn:H1; [apply N.ltb_lt in H1; lia|].
  destruct (c =? 92)%N eqn:H2; [apply N.eqb_eq in H2; done|].
  destruct (c =? 34)%N eqn:H3; [apply N.eqb_eq in H3; lia|]. done.
Qed.

Lemma hexval_not_backslash c v : hexval c = Some v -> c <> BACKSLASH.
Proof.
  unfold hexval, BACKSLASH. intros H ->. vm_compute in H. discriminate.
Qed.

(** The four digits of a [\u] escape are content of the string. *)
Lemma decode_uXXXX_crosses s uni rest :
  decode_uXXXX s = Some (uni, rest) ->
  exists p, s = p ++ rest /\ lex_run LexIn p = Some LexIn.
Proof.
  unfold decode_uXXXX. destruct s as [|a [|b [|c [|d s]]]]; try done.
  destruct (hexval a) eqn:Ha, (hexval b) eqn:Hb, (hexval c) eqn:Hc,
    (hexval d) eqn:Hd; try done.
  intros [= _ <-]. exists [a; b; c; d]. split; [done|]. cbn [lex_run].
  rewrite !lex_step_in_content; eauto using hexval_ge, hexval_not_backslash.
Qed.

Lemma unescape_ge esc c : unescape esc = Some c -> (32 <= esc)%N.
Proof.
  unfold unescape, QUOTE, BACKSLASH.
  repeat (case_match; [match goal with
                       | H : (_ =? _)%N = true |- _ => apply N.eqb_eq in H; lia
                       end|]).
  done.
Qed.

Lemma scanstring_crosses fuel : forall acc s v rest,
  scanstring fuel acc s = Some (v, rest) -> crosses LexIn s rest.
Proof.
  induction fuel as [|fuel IH]; intros acc s v rest; simpl; [done|].
  destruct s as [|c s]; [done|].
  destruct (c =? QUOTE)%N eqn:Hq.
  { intros [= _ <-]. exists [c]. split; [done|]. simpl.
    apply N.eqb_eq in Hq. subst c. reflexivity. }
  destruct (c <? 32)%N eqn:Hctl; [done|].
  destruct (c =? BACKSLASH)%N eqn:Hbs.
  - destruct s as [|esc s]; [done|].
    assert (Hstep : forall q, 
      (32 <= esc)%N -> lex_run LexIn (c :: esc :: q) = lex_run LexIn q).
    { intros q Hesc. cbn [lex_run lex_step]. rewrite Hctl, Hbs.
      cbn [lex_run lex_step]. apply N.ltb_ge in Hesc. by rewrite Hesc. }
    destruct (esc =? 117)%N eqn:Hu.
    + apply N.eqb_eq in Hu. subst esc.
      destruct (decode_uXXXX s) as [[uni rest1]|] eqn:Hd; [|done].
      apply decode_uXXXX_crosses in Hd as (p1 & -> & Hp1).
      assert (Hone : forall acc', scanstring fuel acc' rest1 = Some (v, rest) ->
                crosses LexIn (c :: 117%N :: p1 ++ rest1) rest).
      { intros acc' Hrec. apply IH in Hrec as (p & -> & Hp).
        exists (c :: 117%N :: p1 ++ p). split; [reassoc|].
        rewrite Hstep by lia. by rewrite lex_run_app, Hp1. }
      destruct (_ && startswith rest1 _) eqn:Hpair; [|apply Hone].
      apply andb_true_iff in Hpair as [_ [rest2 ->]%startswith_spec].
      change (drop 2 ([BACKSLASH; 117%N] ++ rest2)) with rest2.
      destruct (decode_uXXXX rest2) as [[uni2 rest3]|] eqn:Hd2; [|done].
      destruct (_ && _); [|apply Hone].
      apply decode_uXXXX_crosses in Hd2 as (p2 & -> & Hp2).
      intros Hrec. apply IH in Hrec as (p & -> & Hp).
      exists (c :: 117%N :: p1 ++ [BACKSLASH; 117%N] ++ p2 ++ p).
      split; [reassoc|].
      rewrite Hstep by lia. rewrite lex_run_app, Hp1.
      change (lex_run LexIn ([BACKSLASH; 117%N] ++ p2 ++ p))
        with (lex_run LexIn (p2 ++ p)).
      by rewrite lex_run_app, Hp2.
    + destruct (unescape esc) as [c'|] eqn:Hun; [|done].
      intros Hrec. apply IH in Hrec as (p & -> & Hp).
      exists (c :: esc :: p). split; [done|].
      rewrite Hstep; [done|]. eapply unescape_ge, Hun.
  - intros Hrec. apply IH in Hrec as (p & -> & Hp).
    exists (c :: p). split; [done|]. cbn [lex_run lex_step].
    by rewrite Hctl, Hbs, Hq.
Qed.

Lemma digits_plain s : forallb is_digit s = true -> forallb plain s = true.
Proof.
  rewrite !forallb_forall. intros H c Hc. specialize (H c Hc).
  unfold is_digit in H. apply andb_true_iff in H as [H1%N.leb_le H2%N.leb_le].
  unfold plain, QUOTE.
  destruct (c =? 96)%N eqn:E1; [apply N.eqb_eq in E1; lia|].
  destruct (c =? 34)%N eqn:E2; [apply N.eqb_eq in E2; lia|]. done.
Qed.

Lemma crosses_digits s : crosses LexOut s (drop_while is_digit s).
Proof.
  rewrite (take_drop_while is_digit s) at 1.
  apply crosses_plain, digits_plain, take_while_all.
Qed.

Lemma crosses_cons c s rest :
  plain c = true -> crosses LexOut s rest -> crosses LexOut (c :: s) rest.
Proof.
  intros Hc Hs. eapply crosses_trans; [by apply crosses_cons_plain|done].
Qed.

Lemma eqb_plain c k : (c =? k)%N = true -> plain k = true -> plain c = true.
Proof. by intros ->%N.eqb_eq. Qed.

Lemma digit_plain c : is_digit c = true -> plain c = true.
Proof.
  intros H. pose proof (digits_plain [c]) as Hp. simpl in Hp.
  rewrite H in Hp. specialize (Hp eq_refl). by apply andb_true_iff in Hp as [? _].
Qed.

Lemma scan_sign_crosses s sign rest :
  scan_sign s = (sign, rest) -> crosses LexOut s rest.
Proof.
  unfold scan_sign. destruct s as [|c s]; [intros [= _ <-]; apply crosses_refl|].
  destruct (c =? 45)%N eqn:Hc; intros [= _ <-]; [|apply crosses_refl].
  apply crosses_cons_plain. by eapply eqb_plain.
Qed.

Lemma scan_integer_crosses s ds rest :
  scan_integer s = Some (ds, rest) -> crosses LexOut s rest.
Proof.
  unfold scan_integer. destruct s as [|c s]; [done|].
  destruct (c =? 48)%N eqn:Hc.
  { intros [= _ <-]. apply crosses_cons_plain. by eapply eqb_plain. }
  destruct (is_digit c) eqn:Hd; [|done]. intros [= _ <-].
  apply crosses_cons; [by apply digit_plain|apply crosses_digits].
Qed.

Lemma scan_frac_crosses s frac rest :
  scan_frac s = (frac, rest) -> crosses LexOut s rest.
Proof.
  unfold scan_frac. destruct s as [|dot [|d s]]; try (intros [= _ <-]; apply crosses_refl).
  destruct (_ && _) eqn:Hc; intros [= _ <-]; [|apply crosses_refl].
  apply andb_true_iff in Hc as [Hdot Hd].
  apply crosses_cons; [by eapply eqb_plain|].
  apply crosses_cons; [by apply digit_plain|apply crosses_digits].
Qed.

Lemma scan_exp_crosses s exp rest :
  scan_exp s = (exp, rest) -> crosses LexOut s rest.
Proof.
  unfold scan_exp. destruct s as [|e s]; [intros [= _ <-]; apply crosses_refl|].
  destruct ((e =? 101)%N || (e =? 69)%N) eqn:He;
    [|intros [= _ <-]; apply crosses_refl].
  assert (Hpe : plain e = true).
  { apply orb_true_iff in He as [He|He]; by eapply eqb_plain. }
  destruct s as [|c t].
  { cbv beta iota zeta. simpl take_while. intros [= _ <-]. apply crosses_refl. }
  destruct ((c =? 45)%N || (c =? 43)%N) eqn:Hc; cbv beta iota zeta.
  - destruct (take_while is_digit t) eqn:Ht; intros [= _ <-]; [apply crosses_refl|].
    apply crosses_cons; [done|]. apply crosses_cons; [|apply crosses_digits].
    apply orb_true_iff in Hc as [Hc|Hc]; by eapply eqb_plain.
  - destruct (take_while is_digit (c :: t)) eqn:Ht; intros [= _ <-];
      [apply crosses_refl|].
    apply crosses_cons; [done|]. apply crosses_digits.
Qed.

Lemma scan_number_crosses s v rest :
  scan_number s = Some (v, rest) -> crosses LexOut s rest.
Proof.
  unfold scan_number.
  destruct (scan_sign s) as [sign s1] eqn:H1.
  destruct (scan_integer s1) as [[ds s2]|] eqn:H2; [|done].
  destruct (scan_frac s2) as [frac s3] eqn:H3.
  destruct (scan_exp s3) as [exp s4] eqn:H4.
  intros Hres. assert (rest = s4) as ->.
  { destruct frac, exp; by injection Hres as _ <-. }
  eapply crosses_trans; [by eapply scan_sign_crosses|].
  eapply crosses_trans; [by eapply scan_integer_crosses|].
  eapply crosses_trans; [by eapply scan_frac_crosses|].
  by eapply scan_exp_crosses.
Qed.

(** What the decoder takes for a value is crossed from the outside of the
    string literals to the outside: it has no backquote outside a string
    literal and no control character in one. *)
Lemma scan_crosses fuel :
  (forall s v rest, scan_once fuel s = Some (v, rest) -> crosses LexOut s rest) /\
  (forall s ms rest, scan_members fuel s = Some (ms, rest) -> crosses LexOut s rest) /\
  (forall s vs rest, scan_items fuel s = Some (vs, rest) -> crosses LexOut s rest).
Proof.
  induction fuel as [|fuel (IHv & IHm & IHi)]; [by repeat split|].
  assert (Hstring : forall s' v rest,
    scanstring (length s') [] s' = Some (v, rest) ->
    crosses LexOut (QUOTE :: s') rest).
  { intros s' v rest (p & -> & Hp)%scanstring_crosses.
    exists (QUOTE :: p). split; [done|]. cbn [lex_run]. exact Hp. }
  split; [|split].
  - intros s v rest. cbn [scan_once]. destruct s as [|c s']; [done|].
    destruct (c =? QUOTE)%N eqn:Hq.
    { apply N.eqb_eq in Hq. subst c.
      destruct (scanstring _ [] s') as [[sv r]|] eqn:Hs; [|done].
      intros [= _ <-]. eauto. }
    destruct (c =? 123)%N eqn:Hob.
    { destruct (skip_ws s') as [|c1 s1] eqn:Hws; [done|]. intros Hres.
      apply crosses_cons; [by eapply eqb_plain|].
      eapply crosses_trans; [apply crosses_skip_ws|]. rewrite Hws.
      destruct (c1 =? 125)%N eqn:Hc1.
      - injection Hres as _ <-. apply crosses_cons_plain. by eapply eqb_plain.
      - destruct (scan_members fuel (c1 :: s1)) as [[ms r]|] eqn:Hm; [|done].
        injection Hres as _ <-. eauto. }
    destruct (c =? 91)%N eqn:Har.
    { destruct (skip_ws s') as [|c1 s1] eqn:Hws; [done|]. intros Hres.
      apply crosses_cons; [by eapply eqb_plain|].
      eapply crosses_trans; [apply crosses_skip_ws|]. rewrite Hws.
      destruct (c1 =? 93)%N eqn:Hc1.
      - injection Hres as _ <-. apply crosses_cons_plain. by eapply eqb_plain.
      - destruct (scan_items fuel (c1 :: s1)) as [[vs r]|] eqn:Hm; [|done].
        injection Hres as _ <-. eauto. }
    destruct (startswith (c :: s') (py "null")) eqn:Hnull.
    { intros [= _ <-]. exact (crosses_literal (c :: s') (py "null") eq_refl Hnull). }
    destruct (startswith (c :: s') (py "true")) eqn:Htrue.
    { intros [= _ <-]. exact (crosses_literal (c :: s') (py "true") eq_refl Htrue). }
    destruct (startswith (c :: s') (py "false")) eqn:Hfalse.
    { intros [= _ <-]. exact (crosses_literal (c :: s') (py "false") eq_refl Hfalse). }
    destruct (scan_number (c :: s')) as [[nv r]|] eqn:Hnum.
    { intros [= _ <-]. by eapply scan_number_crosses. }
    destruct (startswith (c :: s') (py "NaN")) eqn:Hnan.
    { intros [= _ <-]. exact (crosses_literal (c :: s') (py "NaN") eq_refl Hnan). }
    destruct (startswith (c :: s') (py "Infinity")) eqn:Hinf.
    { intros [= _ <-]. exact (crosses_literal (c :: s') (py "Infinity") eq_refl Hinf). }
    destruct (startswith (c :: s') (py "-Infinity")) eqn:Hninf; [|done].
    intros [= _ <-]. exact (crosses_literal (c :: s') (py "-Infinity") eq_refl Hninf).
  - intros s ms rest. cbn [scan_members]. destruct s as [|q s']; [done|].
    destruct (q =? QUOTE)%N eqn:Hq; [|done].
    apply N.eqb_eq in Hq. subst q.
    destruct (scanstring _ [] s') as [[key s1]|] eqn:Hs; [|done].
    destruct (skip_ws s1) as [|colon s2] eqn:Hws1; [done|].
    destruct (colon =? 58)%N eqn:Hcolon; [|done].
    destruct (scan_once fuel (skip_ws s2)) as [[value s3]|] eqn:Hv; [|done].
    destruct (skip_ws s3) as [|d s4] eqn:Hws3; [done|].
    intros Hres.
    eapply crosses_trans; [by eapply Hstring|].
    eapply crosses_trans; [apply crosses_skip_ws|]. rewrite Hws1.
    apply crosses_cons; [by eapply eqb_plain|].
    eapply crosses_trans; [apply crosses_skip_ws|].
    eapply crosses_trans; [by eapply IHv|].
    eapply crosses_trans; [apply crosses_skip_ws|]. rewrite Hws3.
    destruct (d =? 125)%N eqn:Hd.
    { injection Hres as _ <-. apply crosses_cons_plain. by eapply eqb_plain. }
    destruct (d =? 44)%N eqn:Hcomma; [|done].
    destruct (scan_members fuel (skip_ws s4)) as [[more r]|] eqn:Hm; [|done].
    injection Hres as _ <-.
    apply crosses_cons; [by eapply eqb_plain|].
    eapply crosses_trans; [apply crosses_skip_ws|]. eauto.
  - intros s vs rest. cbn [scan_items].
    destruct (scan_once fuel s) as [[value s1]|] eqn:Hv; [|done].
    destruct (skip_ws s1) as [|d s2] eqn:Hws; [done|].
    intros Hres.
    eapply crosses_trans; [by eapply IHv|].
    eapply crosses_trans; [apply crosses_skip_ws|]. rewrite Hws.
    destruct (d =? 93)%N eqn:Hd.
    { injection Hres as _ <-. apply crosses_cons_plain. by eapply eqb_plain. }
    destruct (d =? 44)%N eqn:Hcomma; [|done].
    destruct (scan_items fuel (skip_ws s2)) as [[more r]|] eqn:Hm; [|done].
    injection Hres as _ <-.
    apply crosses_cons; [by eapply eqb_plain|].
    eapply crosses_trans; [apply crosses_skip_ws|]. eauto.
Qed.

(** The text of a document that [json.loads] accepts. *)
Lemma loads_lexical s v : loads s = Some v -> lex_run LexOut s = Some LexOut.
Proof.
  unfold loads.
  destruct (scan_once _ (skip_ws s)) as [[v' rest]|] eqn:Hv; [|done].
  destruct (skip_ws rest) eqn:Hrest; [|done]. intros _.
  assert (crosses LexOut s []) as (p & -> & Hp).
  { eapply crosses_trans; [apply crosses_skip_ws|].
    eapply crosses_trans; [exact (proj1 (scan_crosses _) _ _ _ Hv)|].
    rewrite <- Hrest. apply crosses_skip_ws. }
  by rewrite app_nil_r.
Qed.

(** ** The fuel of the decoder

    A value that is read with some fuel is read with any fuel above the
    number of characters it takes, so the bounds [loads] and [scan_once]
    give are never what makes a text fail. *)

Lemma crosses_length l s rest : crosses l s rest -> length rest <= length s.
Proof. intros (p & -> & _). rewrite length_app. lia. Qed.

Lemma decode_uXXXX_length s uni rest :
  decode_uXXXX s = Some (uni, rest) -> length s = 4 + length rest.
Proof.
  unfold decode_uXXXX. destruct s as [|a [|b [|c [|d s]]]]; try done.
  destruct (hexval a), (hexval b), (hexval c), (hexval d); try done.
  by intros [= _ <-].
Qed.

Lemma scanstring_fuel fuel : forall acc s v rest,
  scanstring fuel acc s = Some (v, rest) ->
  length rest < length s /\
  forall f, length s - length rest <= f -> scanstring f acc s = Some (v, rest).
Proof.
  induction fuel as [|fuel IH]; intros acc s v rest; [done|].
  cbn [scanstring]. destruct s as [|c s]; [done|].
  destruct (c =? QUOTE)%N eqn:Hq.
  { intros [= <- <-]. split; [simpl; lia|]. intros [|f] Hf; [simpl in Hf; lia|].
    cbn [scanstring]. by rewrite Hq. }
  destruct (c <? 32)%N eqn:Hctl; [done|].
  assert (Hrec : forall acc' s', length s' <= length s ->
    scanstring fuel acc' s' = Some (v, rest) ->
    length rest < length (c :: s) /\
    forall f, length (c :: s) - length rest <= f ->
      exists f', f = S f' /\ scanstring f' acc' s' = Some (v, rest)).
  { intros acc' s' Hlen Hs. destruct (IH _ _ _ _ Hs) as [Hlt Hall].
    split; [simpl; lia|]. intros [|f] Hf; [simpl in Hf; lia|].
    exists f. split; [done|]. apply Hall. simpl in Hf. lia. }
  destruct (c =? BACKSLASH)%N eqn:Hbs.
  - destruct s as [|esc s]; [done|].
    destruct (esc =? 117)%N eqn:Hu.
    + destruct (decode_uXXXX s) as [[uni rest1]|] eqn:Hd; [|done].
      pose proof (decode_uXXXX_length _ _ _ Hd) as Hl1.
      destruct (_ && startswith rest1 _) eqn:Hpair.
      * destruct (decode_uXXXX (drop 2 rest1)) as [[uni2 rest2]|] eqn:Hd2; [|done].
        pose proof (decode_uXXXX_length _ _ _ Hd2) as Hl2.
        rewrite length_drop in Hl2.
        destruct ((56320 <=? uni2)%N && (uni2 <=? 57343)%N) eqn:Hlow; intros Hs.
        -- destruct (Hrec _ rest2 ltac:(simpl; lia) Hs) as [Hlt Hall].
           split; [done|]. intros f Hf. destruct (Hall f Hf) as (f' & -> & Hf').
           cbn [scanstring]. by rewrite Hq, Hctl, Hbs, Hu, Hd, Hpair, Hd2, Hlow.
        -- destruct (Hrec _ rest1 ltac:(simpl; lia) Hs) as [Hlt Hall].
           split; [done|]. intros f Hf. destruct (Hall f Hf) as (f' & -> & Hf').
           cbn [scanstring]. by rewrite Hq, Hctl, Hbs, Hu, Hd, Hpair, Hd2, Hlow.
      * intros Hs. destruct (Hrec _ rest1 ltac:(simpl; lia) Hs) as [Hlt Hall].
        split; [done|]. intros f Hf. destruct (Hall f Hf) as (f' & -> & Hf').
        cbn [scanstring]. by rewrite Hq, Hctl, Hbs, Hu, Hd, Hpair.
    + destruct (unescape esc) as [c'|] eqn:Hun; [|done]. intros Hs.
      destruct (Hrec _ s ltac:(simpl; lia) Hs) as [Hlt Hall].
      split; [done|]. intros f Hf. destruct (Hall f Hf) as (f' & -> & Hf').
      cbn [scanstring]. by rewrite Hq, Hctl, Hbs, Hu, Hun.
  - intros Hs. destruct (Hrec _ s ltac:(lia) Hs) as [Hlt Hall].
    split; [done|]. intros f Hf. destruct (Hall f Hf) as (f' & -> & Hf').
    cbn [scanstring]. by rewrite Hq, Hctl, Hbs.
Qed.

(** The bound [scan_once] gives for a string is enough. *)
Lemma scanstring_enough fuel acc s v rest :
  scanstring fuel acc s = Some (v, rest) ->
  scanstring (length s) acc s = Some (v, rest).
Proof. intros [_ H]%scanstring_fuel. apply H. lia. Qed.

Lemma skip_ws_length s : length (skip_ws s) <= length s.
Proof. apply (crosses_length LexOut), crosses_skip_ws. Qed.

Lemma scan_fuel fuel :
  (forall s v rest, scan_once fuel s = Some (v, rest) ->
     forall f, length s - length rest < f -> scan_once f s = Some (v, rest)) /\
  (forall s ms rest, scan_members fuel s = Some (ms, rest) ->
     forall f, length s - length rest < f -> scan_members f s = Some (ms, rest)) /\
  (forall s vs rest, scan_items fuel s = Some (vs, rest) ->
     forall f, length s - length rest < f -> scan_items f s = Some (vs, rest)).
Proof.
  induction fuel as [|fuel (IHv & IHm & IHi)]; [by repeat split|].
  pose proof (scan_crosses fuel) as (Cv & Cm & Ci).
  split; [|split].
  - intros s v rest Hs f Hf. destruct f as [|f]; [lia|].
    revert Hs. cbn [scan_once]. destruct s as [|c s']; [done|].
    destruct (c =? QUOTE)%N; [done|].
    destruct (c =? 123)%N.
    { destruct (skip_ws s') as [|c1 s1] eqn:Hws; [intros Hno; discriminate Hno|].
      destruct (c1 =? 125)%N; [done|].
      destruct (scan_members fuel (c1 :: s1)) as [[ms r]|] eqn:Hm; [|intros Hno; discriminate Hno].
      intros [= <- <-]. rewrite (IHm _ _ _ Hm); [done|].
      pose proof (skip_ws_length s') as Hl. rewrite Hws in Hl.
      pose proof (crosses_length _ _ _ (Cm _ _ _ Hm)).
      simpl in *. lia. }
    destruct (c =? 91)%N; [|done].
    destruct (skip_ws s') as [|c1 s1] eqn:Hws; [intros Hno; discriminate Hno|].
    destruct (c1 =? 93)%N; [done|].
    destruct (scan_items fuel (c1 :: s1)) as [[vs r]|] eqn:Hm; [|intros Hno; discriminate Hno].
    intros [= <- <-]. rewrite (IHi _ _ _ Hm); [done|].
    pose proof (skip_ws_length s') as Hl. rewrite Hws in Hl.
    pose proof (crosses_length _ _ _ (Ci _ _ _ Hm)).
    simpl in *. lia.
  - intros s ms rest Hs f Hf. destruct f as [|f]; [lia|].
    revert Hs. cbn [scan_members]. destruct s as [|q s']; [done|].
    destruct (q =? QUOTE)%N; [|intros Hno; discriminate Hno].
    destruct (scanstring _ [] s') as [[key s1]|] eqn:Hk; [|intros Hno; discriminate Hno].
    destruct (skip_ws s1) as [|colon s2] eqn:Hws1; [intros Hno; discriminate Hno|].
    destruct (colon =? 58)%N; [|intros Hno; discriminate Hno].
    destruct (scan_once fuel (skip_ws s2)) as [[value s3]|] eqn:Hv; [|intros Hno; discriminate Hno].
    destruct (skip_ws s3) as [|d s4] eqn:Hws3; [intros Hno; discriminate Hno|].
    pose proof (crosses_length _ _ _ (scanstring_crosses _ _ _ _ _ Hk)) as L1.
    pose proof (skip_ws_length s1) as L2. rewrite Hws1 in L2.
    pose proof (skip_ws_length s2) as L3.
    pose proof (crosses_length _ _ _ (Cv _ _ _ Hv)) as L4.
    pose proof (skip_ws_length s3) as L5. rewrite Hws3 in L5.
    pose proof (skip_ws_length s4) as L6.
    simpl in L2, L5, Hf.
    destruct (d =? 125)%N eqn:Hd.
    { intros [= <- <-]. rewrite (IHv _ _ _ Hv) by lia. by rewrite Hws3, Hd. }
    destruct (d =? 44)%N eqn:Hcomma; [|intros Hno; discriminate Hno].
    destruct (scan_members fuel (skip_ws s4)) as [[more r]|] eqn:Hm;
      [|intros Hno; discriminate Hno].
    intros [= <- <-].
    pose proof (crosses_length _ _ _ (Cm _ _ _ Hm)) as L7.
    rewrite (IHv _ _ _ Hv) by lia. rewrite Hws3, Hd, Hcomma.
    by rewrite (IHm _ _ _ Hm) by lia.
  - intros s vs rest Hs f Hf. destruct f as [|f]; [lia|].
    revert Hs. cbn [scan_items].
    destruct (scan_once fuel s) as [[value s1]|] eqn:Hv; [|intros Hno; discriminate Hno].
    destruct (skip_ws s1) as [|d s2] eqn:Hws; [intros Hno; discriminate Hno|].
    pose proof (crosses_length _ _ _ (Cv _ _ _ Hv)) as L1.
    pose proof (skip_ws_length s1) as L2. rewrite Hws in L2.
    pose proof (skip_ws_length s2) as L3. simpl in L2.
    destruct (d =? 93)%N eqn:Hd.
    { intros [= <- <-]. rewrite (IHv _ _ _ Hv) by lia. by rewrite Hws, Hd. }
    destruct (d =? 44)%N eqn:Hcomma; [|intros Hno; discriminate Hno].
    destruct (scan_items fuel (skip_ws s2)) as [[more r]|] eqn:Hm;
      [|intros Hno; discriminate Hno].
    intros [= <- <-].
    pose proof (crosses_length _ _ _ (Ci _ _ _ Hm)) as L4.
    rewrite (IHv _ _ _ Hv) by lia. rewrite Hws, Hd, Hcomma.
    by rewrite (IHi _ _ _ Hm) by lia.
Qed.

(** A document that is read with some fuel is read by [loads]. *)
Lemma loads_enough fuel s v rest :
  scan_once fuel (skip_ws s) = Some (v, rest) -> skip_ws rest = [] ->
  loads s = Some v.
Proof.
  intros Hv Hrest. unfold loads.
  rewrite (proj1 (scan_fuel fuel) _ _ _ Hv).
  - by rewrite Hrest.
  - pose proof (skip_ws_length s). lia.
Qed.

(** ** The fences and the text of the JSON object *)

Lemma prev_of_cons prev0 c a : prev_of prev0 (c :: a) = prev_of (Some c) a.
Proof.
  unfold prev_of. destruct a as [|d a]; [done|]. rewrite last_cons.
  by destruct (last (d :: a)) eqn:Hl; [|apply last_None in Hl].
Qed.

Lemma prev_of_snoc prev0 a x : prev_of prev0 (a ++ [x]) = Some x.
Proof. unfold prev_of. by rewrite last_snoc. Qed.

Lemma lex_run_app_Some l p q lf :
  lex_run l (p ++ q) = Some lf ->
  exists l', lex_run l p = Some l' /\ lex_run l' q = Some lf.
Proof. rewrite lex_run_app. destruct (lex_run l p) as [l'|]; [eauto|done]. Qed.

Lemma lex_backquote_inside l s lf :
  lex_run l (96%N :: s) = Some lf -> l <> LexOut /\ lex_run LexIn s = Some lf.
Proof.
  destruct l; simpl; intros H; [discriminate H| |];
    (split; [discriminate|exact H]).
Qed.

Lemma lex_inside_last a x l :
  lex_run LexOut (a ++ [x]) = Some l -> l <> LexOut -> x <> NL.
Proof.
  intros (l' & _ & Hx)%lex_run_app_Some Hl ->.
  destruct l'; simpl in Hx; [injection Hx as <-; done|discriminate..].
Qed.

Lemma startswith_cons_inv c s p ps :
  startswith (c :: s) (p :: ps) = true -> c = p /\ startswith s ps = true.
Proof. simpl. by intros [->%N.eqb_eq ?]%andb_true_iff. Qed.

Lemma last_suffix (a b : str) : b <> [] -> last (a ++ b) = last b.
Proof.
  intros Hb. destruct b as [|x b _] using rev_ind; [done|].
  by rewrite app_assoc, !last_snoc.
Qed.

Lemma take_while_app_stop {A} (f : A -> bool) b x post :
  f x = false -> last b = Some x ->
  take_while f (b ++ post) = take_while f b /\
  drop_while f (b ++ post) = drop_while f b ++ post /\
  drop_while f b <> [] /\ last (drop_while f b) = Some x.
Proof.
  intros Hx. induction b as [|c b IH]; [done|]. intros Hlast. simpl.
  destruct (f c) eqn:Hc; [|done].
  destruct b as [|d b]; [simpl in Hlast; congruence|].
  rewrite last_cons in Hlast.
  destruct (last (d :: b)) eqn:Hl; [|by apply last_None in Hl].
  destruct (IH Hlast) as (-> & -> & ? & ?). done.
Qed.

(** A fence at the head of a text that ends with a closing brace lies in
    the text, and so does what ends it. *)
Lemma fence_prefix_inside r post :
  last r = Some 125%N -> startswith (r ++ post) FENCE = true ->
  exists t, r = FENCE ++ t /\ last t = Some 125%N.
Proof.
  intros Hl Hs.
  destruct r as [|c1 r]; [done|]. apply startswith_cons_inv in Hs as [-> Hs].
  destruct r as [|c2 r]; [done|]. apply startswith_cons_inv in Hs as [-> Hs].
  destruct r as [|c3 r]; [done|]. apply startswith_cons_inv in Hs as [-> Hs].
  destruct r as [|c4 r]; [done|]. by exists (c4 :: r).
Qed.

Section FenceFacts.
Context (J : str).
Hypothesis Hlex : lex_run LexOut J = Some LexOut.
Hypothesis Hopen : head J = Some 123%N.
Hypothesis Hclose : last J = Some 125%N.

(** No line of [J] starts with a fence. *)
Lemma fence_open_inert prev0 post a b :
  J = a ++ b -> b <> [] -> fence_open_at (prev_of prev0 a) (b ++ post) = None.
Proof using Hlex Hopen.
  intros HJ Hb. unfold fence_open_at.
  destruct (startswith (b ++ post) FENCE) eqn:Hs; [|by rewrite andb_false_r].
  destruct b as [|c b]; [done|]. apply startswith_cons_inv in Hs as [-> _].
  clear Hclose. destruct a as [|x a _] using rev_ind.
  { rewrite HJ in Hopen. simpl in Hopen. congruence. }
  rewrite prev_of_snoc. rewrite HJ in Hlex.
  apply lex_run_app_Some in Hlex as (l & Ha & [Hl _]%lex_backquote_inside).
  apply (lex_inside_last a x l Ha) in Hl. apply N.eqb_neq in Hl.
  by rewrite Hl.
Qed.

(** Whitespace in a string literal holds no line feed and does not end the
    literal. *)
Lemma lex_in_whitespace w s lf :
  forallb isspace w = true -> lex_run LexIn (w ++ s) = Some lf ->
  last_index_of NL w = None /\ lex_run LexIn s = Some lf.
Proof.
  induction w as [|c w IH]; [done|]. simpl.
  intros [Hc Hw]%andb_true_iff. unfold lex_step.
  destruct (c <? 32)%N eqn:Hctl; [done|].
  destruct (c =? BACKSLASH)%N eqn:Hbs.
  { apply N.eqb_eq in Hbs. subst c. discriminate Hc. }
  destruct (c =? QUOTE)%N eqn:Hq.
  { apply N.eqb_eq in Hq. subst c. discriminate Hc. }
  intros Hrun. destruct (IH Hw Hrun) as [-> ?]. split; [|done].
  destruct (c =? NL)%N eqn:Hnl; [|done].
  apply N.eqb_eq in Hnl. subst c. discriminate Hctl.
Qed.

(** No fence in [J] is followed by the end of a line. *)
Lemma fence_close_inert prev post a b :
  J = a ++ b -> b <> [] -> fence_close_at prev (b ++ post) = None.
Proof using Hlex Hclose.
  intros HJ Hb. unfold fence_close_at.
  assert (Hbl : last b = Some 125%N) by (by rewrite <- Hclose, HJ, last_suffix).
  destruct (take_while_app_stop isspace b 125%N post eq_refl Hbl)
    as (_ & -> & Hr & Hrl).
  destruct (startswith (drop_while isspace b ++ post) FENCE) eqn:Hs; [|done].
  destruct (fence_prefix_inside _ post Hrl Hs) as (t & Hreq & Htl).
  (* the state after the fence *)
  assert (Hin : lex_run LexIn t = Some LexOut).
  { pose proof (take_drop_while isspace b) as Hsplit.
    rewrite Hreq in Hsplit. rewrite HJ, Hsplit, app_assoc in Hlex.
    apply lex_run_app_Some in Hlex as (l & _ & Hrun).
    apply lex_backquote_inside in Hrun as [_ Hrun].
    apply lex_backquote_inside in Hrun as [_ Hrun].
    by apply lex_backquote_inside in Hrun as [_ Hrun]. }
  rewrite Hreq. change (drop 3 ((FENCE ++ t) ++ post)) with (t ++ post).
  destruct (take_while_app_stop isspace t 125%N post eq_refl Htl)
    as (-> & -> & Hafter & _).
  rewrite (take_drop_while isspace t) in Hin.
  apply lex_in_whitespace in Hin as [-> _]; [|apply take_while_all].
  by destruct (drop_while isspace t).
Qed.

End FenceFacts.

(** ** Deleting the fences around the JSON object *)

Lemma delete_matches_subset m : forall s prev skip,
  delete_matches m prev skip s ⊆ s.
Proof.
  induction s as [|c s IH]; intros prev skip; cbn [delete_matches]; [done|].
  destruct skip as [|k].
  - destruct (m prev (c :: s)) as [[|k]|].
    + apply list_subseteq_skip, IH.
    + apply list_subseteq_cons, IH.
    + apply list_subseteq_skip, IH.
  - apply list_subseteq_cons, IH.
Qed.

(** Across a text in which the pattern matches nowhere, nothing is
    deleted. *)
Lemma delete_matches_inert m post : forall J prev0,
  (forall a b, J = a ++ b -> b <> [] -> m (prev_of prev0 a) (b ++ post) = None) ->
  delete_matches m prev0 0 (J ++ post)
  = J ++ delete_matches m (prev_of prev0 J) 0 post.
Proof.
  induction J as [|c J IH]; intros prev0 Hinert; [done|].
  cbn [app delete_matches].
  assert (H0 : m prev0 (c :: J ++ post) = None).
  { by apply (Hinert [] (c :: J) eq_refl). }
  rewrite H0.
  rewrite prev_of_cons. f_equal. apply IH.
  intros a b -> Hb. rewrite <- (prev_of_cons prev0). by apply (Hinert (c :: a) b).
Qed.


(** A match that starts before a character that no fence holds ends before
    it: what is deleted from [pre] is deleted from [pre] only. *)
Lemma delete_matches_before m x rest :
  fence_like m -> fence_char x = false ->
  forall pre prev skip, skip <= length pre ->
  exists pre' prev',
    delete_matches m prev skip (pre ++ x :: rest)
    = pre' ++ delete_matches m prev' 0 (x :: rest) /\ pre' ⊆ pre.
Proof.
  intros Hm Hx. induction pre as [|c pre IH]; intros prev skip Hskip.
  { exists [], prev. simpl in Hskip. by replace skip with 0 by lia. }
  cbn [app delete_matches]. destruct skip as [|k].
  - destruct (m prev (c :: pre ++ x :: rest)) as [[|k]|] eqn:Hmatch.
    + destruct (IH (Some c) 0) as (pre' & prev' & -> & Hsub); [lia|].
      exists (c :: pre'), prev'. split; [done|]. by apply list_subseteq_skip.
    + assert (k <= length pre).
      { destruct (Hm _ _ _ Hmatch) as [Hlen Hall].
        destruct (decide (k <= length pre)) as [|Hgt]; [done|].
        rewrite forallb_forall in Hall.
        rewrite (Hall x) in Hx; [done|]. apply list_elem_of_In.
        change (c :: pre ++ x :: rest) with ((c :: pre) ++ x :: rest).
        rewrite take_app_ge by (simpl; lia).
        apply elem_of_app. right.
        simpl length. replace (S k - S (length pre)) with (S (k - S (length pre)))
          by lia.
        apply list_elem_of_here. }
      destruct (IH (Some c) k) as (pre' & prev' & -> & Hsub); [done|].
      exists pre', prev'. split; [done|]. by apply list_subseteq_cons.
    + destruct (IH (Some c) 0) as (pre' & prev' & -> & Hsub); [lia|].
      exists (c :: pre'), prev'. split; [done|]. by apply list_subseteq_skip.
  - destruct (IH (Some c) k) as (pre' & prev' & -> & Hsub); [simpl in Hskip; lia|].
    exists pre', prev'. split; [done|]. by apply list_subseteq_cons.
Qed.

Lemma take_length_app {A} (p q : list A) k :
  take (length p + k) (p ++ q) = p ++ take k q.
Proof. by rewrite take_app_add. Qed.

Lemma take_take_while {A} (f : A -> bool) (l : list A) :
  take (length (take_while f l)) l = take_while f l.
Proof.
  rewrite (take_drop_while f l) at 2. by rewrite take_app_length.
Qed.

Lemma forallb_take {A} (f : A -> bool) (l : list A) k :
  forallb f l = true -> forallb f (take k l) = true.
Proof.
  rewrite !forallb_forall. intros H x Hx. apply H.
  apply list_elem_of_In. apply list_elem_of_In in Hx.
  by eapply (subseteq_take k l).
Qed.

Lemma whitespace_fence_like w :
  forallb isspace w = true -> forallb fence_char w = true.
Proof.
  rewrite !forallb_forall. intros H c Hc. unfold fence_char.
  by rewrite (H c Hc), orb_true_r.
Qed.

Lemma length_take_while {A} (f : A -> bool) (l : list A) :
  length (take_while f l) <= length l.
Proof. induction l as [|x l IH]; simpl; [done|]. destruct (f x); simpl; lia. Qed.

Lemma fence_open_like : fence_like fence_open_at.
Proof.
  intros prev s k. unfold fence_open_at.
  destruct (_ && startswith s FENCE) eqn:Hs; [|done].
  apply andb_true_iff in Hs as [_ [r ->]%startswith_spec].
  change (drop 3 (FENCE ++ r)) with r.
  destruct (startswith r (py "json")) eqn:Hj.
  - apply startswith_spec in Hj as [r2 ->].
    change (drop 4 (py "json" ++ r2)) with r2. intros [= <-].
    split.
    { rewrite !length_app. pose proof (length_take_while isspace r2).
      change (length FENCE) with 3. change (length (py "json")) with 4. lia. }
    rewrite (app_assoc FENCE).
    change (take _ ((FENCE ++ py "json") ++ r2))
      with (take (length (FENCE ++ py "json") + length (take_while isspace r2))
              ((FENCE ++ py "json") ++ r2)).
    rewrite take_length_app, take_take_while.
    rewrite forallb_app.
    rewrite (whitespace_fence_like (take_while isspace r2))
      by apply take_while_all.
    reflexivity.
  - intros [= <-]. split.
    { rewrite length_app. pose proof (length_take_while isspace r).
      change (length FENCE) with 3. lia. }
    change (take _ (FENCE ++ r))
      with (take (length FENCE + length (take_while isspace r)) (FENCE ++ r)).
    rewrite take_length_app, take_take_while, forallb_app.
    rewrite (whitespace_fence_like (take_while isspace r))
      by apply take_while_all.
    reflexivity.
Qed.

Lemma last_index_of_lt c w j : last_index_of c w = Some j -> j < length w.
Proof.
  revert j. induction w as [|x w IH]; intros j; simpl; [done|].
  destruct (last_index_of c w) as [i|].
  - intros [= <-]. specialize (IH i eq_refl). lia.
  - destruct (x =? c)%N; [|done]. intros [= <-]. lia.
Qed.

Lemma fence_close_like : fence_like fence_close_at.
Proof.
  intros prev s k. unfold fence_close_at.
  pose proof (take_drop_while isspace s) as Hsplit.
  pose proof (take_while_all isspace s) as Hw1%whitespace_fence_like.
  destruct (startswith (drop_while isspace s) FENCE) eqn:Hs; [|done].
  apply startswith_spec in Hs as [r Hr]. rewrite Hr in *.
  change (drop 3 (FENCE ++ r)) with r.
  pose proof (take_drop_while isspace r) as Hsplit2.
  pose proof (take_while_all isspace r) as Hw2%whitespace_fence_like.
  set (w1 := take_while isspace s) in *.
  set (w2 := take_while isspace r) in *.
  assert (Hk : forall j, j <= length w2 ->
    length w1 + 3 + j <= length s /\
    forallb fence_char (take (length w1 + 3 + j) s) = true).
  { intros j Hj. rewrite Hsplit, Hsplit2. split.
    { rewrite !length_app. change (length FENCE) with 3. lia. }
    rewrite <- Nat.add_assoc, take_length_app.
    change 3 with (length FENCE). rewrite take_length_app.
    rewrite take_app_le by done.
    rewrite !forallb_app, Hw1. simpl. by apply forallb_take. }
  destruct (drop_while isspace r) eqn:Hafter.
  - intros [= <-]. by apply Hk.
  - destruct (last_index_of NL w2) as [j|] eqn:Hj; [|done].
    intros [= <-]. apply Hk. apply last_index_of_lt in Hj. lia.
Qed.

(** ** strip and the search for the braces *)

Lemma elem_of_rev {A} (x : A) (l : list A) : x ∈ rev l <-> x ∈ l.
Proof. rewrite !list_elem_of_In. symmetry. apply in_rev. Qed.

Lemma lstrip_subset s : lstrip s ⊆ s.
Proof.
  induction s as [|c s IH]; simpl; [done|].
  destruct (isspace c); [by apply list_subseteq_cons|done].
Qed.

Lemma rstrip_subset s : rstrip s ⊆ s.
Proof.
  unfold rstrip. intros x Hx. rewrite elem_of_rev in Hx.
  apply lstrip_subset in Hx. by rewrite elem_of_rev in Hx.
Qed.

Lemma lstrip_app_stop a x t :
  isspace x = false -> lstrip (a ++ x :: t) = lstrip a ++ x :: t.
Proof.
  intros Hx. induction a as [|c a IH]; simpl; [by rewrite Hx|].
  by destruct (isspace c).
Qed.

Lemma strip_around pre J post :
  head J = Some 123%N -> last J = Some 125%N ->
  strip (pre ++ J ++ post) = lstrip pre ++ J ++ rstrip post.
Proof.
  intros Hh Hl. unfold strip.
  assert (rstrip (pre ++ J ++ post) = pre ++ J ++ rstrip post) as ->.
  { unfold rstrip. rewrite !rev_app_distr.
    destruct J as [|x J' _] using rev_ind; [done|].
    rewrite last_snoc in Hl. injection Hl as ->.
    rewrite rev_app_distr. cbn [rev app].
    rewrite <- app_assoc. cbn [app].
    rewrite lstrip_app_stop by done.
    rewrite rev_app_distr. cbn [rev]. rewrite rev_app_distr, !rev_involutive.
    cbn [rev app]. by rewrite <- !app_assoc. }
  destruct J as [|x J']; [done|]. injection Hh as ->.
  cbn [app]. by rewrite lstrip_app_stop.
Qed.

Lemma drop_while_app_all {A} (f : A -> bool) p x t :
  forallb f p = true -> f x = false -> drop_while f (p ++ x :: t) = x :: t.
Proof.
  intros Hp Hx. induction p as [|c p IH]; simpl in *; [by rewrite Hx|].
  apply andb_true_iff in Hp as [-> Hp]. auto.
Qed.

Lemma not_elem_forallb (k : N) (p : str) :
  k ∉ p -> forallb (fun c => negb (c =? k)%N) p = true.
Proof.
  intros Hk. apply forallb_forall. intros c Hc. apply negb_true_iff, N.eqb_neq.
  intros ->. by apply Hk, list_elem_of_In.
Qed.

Lemma search_braces_around p J q :
  head J = Some 123%N -> last J = Some 125%N -> 123%N ∉ p -> 125%N ∉ q ->
  search_braces (p ++ J ++ q) = Some J.
Proof.
  intros Hh Hl Hp Hq. unfold search_braces.
  destruct J as [|x J']; [done|]. injection Hh as ->.
  cbn [app]. rewrite drop_while_app_all; [|by apply not_elem_forallb|done].
  change (123%N :: J' ++ q) with ((123%N :: J') ++ q).
  set (J := 123%N :: J') in *.
  rewrite rev_app_distr.
  destruct J as [|y J'' _] using rev_ind; [done|].
  rewrite last_snoc in Hl. injection Hl as ->.
  rewrite rev_app_distr. cbn [rev app].
  rewrite drop_while_app_all; [|apply not_elem_forallb; by rewrite elem_of_rev|done].
  cbn [rev]. rewrite rev_involutive. by destruct J''.
Qed.

(** The fences and the prose around the text of a JSON object are taken
    away or left, the text itself is untouched. *)
Lemma strip_fences_around pre J post :
  lex_run LexOut J = Some LexOut ->
  head J = Some 123%N -> last J = Some 125%N ->
  exists p q, strip_fences (pre ++ J ++ post) = p ++ J ++ q /\
              p ⊆ pre /\ q ⊆ post.
Proof.
  intros Hlex Hh Hl. unfold strip_fences. rewrite (strip_around pre J post Hh Hl).
  assert (Hpass : forall m, fence_like m ->
    (forall prev0 rest a b, J = a ++ b -> b <> [] ->
       m (prev_of prev0 a) (b ++ rest) = None) ->
    forall p q, exists p' q',
      delete_matches m None 0 (p ++ J ++ q) = p' ++ J ++ q' /\
      p' ⊆ p /\ q' ⊆ q).
  { intros m Hlike Hinert p q.
    destruct J as [|x J'] eqn:HJ; [done|]. injection Hh as ->.
    destruct (delete_matches_before m 123%N (J' ++ q) Hlike eq_refl p None 0)
      as (p' & prev' & Hdel & Hsub); [lia|].
    cbn [app]. rewrite Hdel.
    change (123%N :: J' ++ q) with ((123%N :: J') ++ q).
    rewrite delete_matches_inert by (intros a b; apply Hinert).
    exists p', (delete_matches m (prev_of prev' (123%N :: J')) 0 q).
    split; [done|]. split; [done|]. apply delete_matches_subset. }
  destruct (Hpass fence_open_at fence_open_like
              (fun prev0 rest => fence_open_inert J Hlex Hh prev0 rest)
              (lstrip pre) (rstrip post)) as (p1 & q1 & -> & Hp1 & Hq1).
  destruct (Hpass fence_close_at fence_close_like
              (fun prev0 rest a b => fence_close_inert J Hlex Hl
                                       (prev_of prev0 a) rest a b)
              p1 q1) as (p2 & q2 & -> & Hp2 & Hq2).
  rewrite (strip_around p2 J q2 Hh Hl).
  exists (lstrip p2), (rstrip q2). split; [done|]. split.
  - etrans; [apply lstrip_subset|]. etrans; [exact Hp2|].
    etrans; [exact Hp1|apply lstrip_subset].
  - etrans; [apply rstrip_subset|]. etrans; [exact Hq2|].
    etrans; [exact Hq1|apply rstrip_subset].
Qed.

(** ** From the decoded object to the plan *)

Lemma dict_get_elem k v members :
  (k, v) ∈ members -> is_Some (dict_get k members).
Proof.
  induction members as [|[k' v'] members IH]; [by intros ?%elem_of_nil|].
  intros [Heq|Hin]%elem_of_cons; simpl.
  - injection Heq as <- <-. destruct (dict_get k members); [eauto|].
    rewrite decide_True by done. eauto.
  - destruct (IH Hin) as [w ->]. eauto.
Qed.

Lemma typed_members_match dict a : args_match dict a ->
  forall members, members ⊆ dict ->
  exists m, typed_members dict members = Some m /\
            forall k, m !! k = if decide (k ∈ members.*1) then a !! k else None.
Proof.
  intros Hmatch. induction members as [|[k0 v0] members IH]; intros Hsub.
  { exists ∅. split; [done|]. intros k. rewrite lookup_empty.
    by rewrite decide_False by apply not_elem_of_nil. }
  destruct IH as (m & Hm & Hlook).
  { intros x Hx. apply Hsub. apply elem_of_cons. by right. }
  destruct (dict_get_elem k0 v0 dict) as [w Hw];
    [apply Hsub; apply elem_of_cons; by left|].
  pose proof (Hmatch k0) as Hk0. rewrite Hw in Hk0.
  destruct (a !! k0) as [s0|] eqn:Ha; [|done]. injection Hk0 as ->.
  exists (<[k0 := s0]> m). cbn [typed_members]. rewrite Hw, Hm. split; [done|].
  intros k. change (((k0, v0) :: members).*1) with (k0 :: members.*1).
  destruct (decide (k = k0)) as [->|Hne].
  - rewrite lookup_insert_eq.
    destruct (decide (k0 ∈ k0 :: members.*1)) as [|Hn]; [done|].
    exfalso. apply Hn, elem_of_cons. by left.
  - rewrite lookup_insert_ne by congruence. rewrite Hlook.
    destruct (decide (k ∈ members.*1)) as [Hin|Hnin];
      destruct (decide (k ∈ k0 :: members.*1)) as [Hin'|Hnin']; try done.
    + exfalso. apply Hnin', elem_of_cons. by right.
    + apply elem_of_cons in Hin' as [?|?]; done.
Qed.

Lemma dict_get_Some_elem k members :
  is_Some (dict_get k members) -> k ∈ members.*1.
Proof.
  induction members as [|[k' v'] members IH]; [by intros [? ?]|]. simpl.
  intros Hsome. change (k ∈ k' :: members.*1). rewrite elem_of_cons.
  revert Hsome. destruct (dict_get k members) as [w|].
  - intros _. right. apply IH. eauto.
  - destruct (decide (k' = k)) as [->|]; [by left|]. by intros [? ?].
Qed.

Lemma typed_args_match members a :
  args_match members a -> typed_args members = Some a.
Proof.
  intros Hmatch.
  destruct (typed_members_match members a Hmatch members) as (m & Hm & Hlook);
    [done|].
  unfold typed_args. rewrite Hm. f_equal. apply map_eq. intros k.
  rewrite Hlook. destruct (decide (k ∈ members.*1)) as [|Hnin]; [done|].
  pose proof (Hmatch k) as Hk. destruct (a !! k) as [s|]; [|done].
  exfalso. apply Hnin. apply dict_get_Some_elem. rewrite Hk. eauto.
Qed.

Lemma has_fields_step entry f : has_fields entry f -> step_fields entry = Ok f.
Proof.
  destruct f as [[[vn vd] vt] va]. intros (m & -> & Hn & Hd & Ht & Ha).
  cbn [fst snd] in *. unfold step_fields. by rewrite Hn, Hd, Ht, <- Ha.
Qed.

Lemma has_fields_steps entries fs :
  Forall2 has_fields entries fs -> steps_fields entries = Ok fs.
Proof.
  induction 1 as [|entry f entries fs Hf _ IH]; [done|].
  simpl. by rewrite (has_fields_step entry f Hf), IH.
Qed.

Lemma holds_step f s : holds f s -> typed_step f = Some s.
Proof.
  destruct f as [[[vn vd] vt] va], s as [sn sd st sa].
  unfold holds. cbn [fst snd n description tool args].
  intros (-> & -> & -> & am & -> & Hmatch). cbn [typed_step].
  by rewrite (typed_args_match am sa Hmatch).
Qed.

Lemma holds_steps fs ss : Forall2 holds fs ss -> typed_steps fs = Some ss.
Proof.
  induction 1 as [|f s fs ss Hf _ IH]; [done|].
  simpl. by rewrite (holds_step f s Hf), IH.
Qed.

(** C3, as the specification states it, fails: prose with braces in it
    around a plan that parses on its own makes the parse fail, for what is
    given to the decoder goes from the first opening brace of the prose to
    the last closing brace. *)
Lemma parse_plan_json_any_prose_counterexample :
  _parse_plan_json demo_json = Ok demo_plan /\
  _parse_plan_json (py "Plan for {task}: " ++ demo_json) = Raise JSONDecodeError /\
  _parse_plan_json (demo_json ++ py " (see {notes})") = Raise JSONDecodeError.
Proof. repeat split; vm_compute; reflexivity. Qed.

(** C3, amended. Let a text be made of prose with no opening brace in it,
    then the text of a JSON object, from its opening brace to its closing
    brace, then prose with no closing brace in it; code fences may be
    anywhere in the prose.  When the object decodes and its [steps] are N
    step objects, each with [n], [description], [tool] and maybe [args],
    [_parse_plan_json] builds N steps from the [n], [description], [tool] and
    [args] of the objects, in order, [args] being the empty object when there
    is none, and the summary of the object, or ["No summary"]; and when these
    values have the types the dataclasses declare, the [Plan] that holds
    them is what it returns. *)
Theorem parse_plan_json_recovers_steps (pre J post : str)
    (m : list (str * json)) (entries : list json)
    (fs : list (json * json * json * json)) :
  head J = Some 123%N -> last J = Some 125%N ->
  123%N ∉ pre -> 125%N ∉ post ->
  loads J = Some (JObj m) ->
  dict_get (py "steps") m = Some (JArr entries) ->
  Forall2 has_fields entries fs ->
  let sm := default (JStr (py "No summary")) (dict_get (py "summary") m) in
  parse_plan_arguments (pre ++ J ++ post) = Ok (sm, fs) /\
  length fs = length entries /\
  forall (summary : str) (ss : list PlanStep),
    sm = JStr summary -> Forall2 holds fs ss ->
    _parse_plan_json (pre ++ J ++ post)
    = Ok {| summary := summary; steps := ss; raw_context := [] |} /\
    length ss = length entries.
Proof.
  intros Hh Hl Hpre Hpost Hloads Hsteps Hfields sm.
  destruct (strip_fences_around pre J post (loads_lexical J _ Hloads) Hh Hl)
    as (p & q & Hstrip & Hp & Hq).
  assert (Hargs : parse_plan_arguments (pre ++ J ++ post) = Ok (sm, fs)).
  { unfold parse_plan_arguments. rewrite Hstrip.
    rewrite (search_braces_around p J q Hh Hl); [|by intros ?%Hp|by intros ?%Hq].
    rewrite Hloads. unfold plan_arguments. rewrite Hsteps.
    change (iterate_steps (default (JArr []) (Some (JArr entries))))
      with (@Ok error _ entries).
    cbv beta iota. by rewrite (has_fields_steps entries fs Hfields). }
  assert (Hlen : length fs = length entries)
    by (symmetry; by eapply Forall2_length).
  split; [exact Hargs|]. split; [exact Hlen|].
  intros summary ss Hsm Hholds. split.
  - unfold _parse_plan_json. rewrite Hargs, Hsm. unfold typed_plan.
    by rewrite (holds_steps fs ss Hholds).
  - rewrite <- Hlen. symmetry. by eapply Forall2_length.
Qed.

Lemma parse_plan_json_recovers_steps_example :
  _parse_plan_json demo_reply = Ok demo_plan.
Proof.
  assert (Hpre : 123%N ∉ py "Here is the plan:" ++ [NL] ++ py "```json" ++ [NL]).
  { apply (bool_decide_unpack _). vm_compute. exact I. }
  assert (Hpost : 125%N ∉ [NL] ++ py "```" ++ [NL] ++ py "Let me know if it works.").
  { apply (bool_decide_unpack _). vm_compute. exact I. }
  set (object := [(py "n", JInt 1); (py "description", JStr (py "read main"));
                  (py "tool", JStr (py "read_file"));
                  (py "args", JObj [(py "path", JStr (py "main.py"))])]).
  set (f := (JInt 1, JStr (py "read main"), JStr (py "read_file"),
             JObj [(py "path", JStr (py "main.py"))])).
  assert (Hfields : Forall2 has_fields [JObj object] [f]).
  { constructor; [|constructor]. exists object. by repeat split. }
  assert (Hholds : Forall2 holds [f] (steps demo_plan)).
  { constructor; [|constructor]. split; [done|]. split; [done|]. split; [done|].
    eexists. split; [reflexivity|]. intros k. simpl.
    destruct (decide (py "path" = k)) as [<-|Hne].
    - by rewrite lookup_insert_eq.
    - rewrite lookup_insert_ne by done. by rewrite lookup_empty. }
  exact (proj1 (proj2 (proj2 (parse_plan_json_recovers_steps _ demo_json _ _ _ _
                  eq_refl eq_refl Hpre Hpost eq_refl eq_refl Hfields))
                  (py "demo") (steps demo_plan) eq_refl Hholds)).
Defined.

(** * More of the code

    Properties of the tools, the executor, the planner and the commands
    beyond the ones above. *)

(** ** Lines *)

Lemma splitlines_from_line l : forall cur rest,
  forallb (fun c => negb (is_linebreak c)) l = true ->
  splitlines_from cur false (l ++ rest) = splitlines_from (rev l ++ cur) false rest.
Proof.
  induction l as [|c l IH]; intros cur rest Hl; [done|].
  simpl in Hl. apply andb_true_iff in Hl as [Hc Hl].
  apply negb_true_iff in Hc. cbn [app splitlines_from andb]. rewrite Hc.
  rewrite IH by done. simpl. by rewrite <- app_assoc.
Qed.

Lemma splitlines_from_NL cur rest :
  splitlines_from cur false (NL :: rest) = rev cur :: splitlines_from [] false rest.
Proof. reflexivity. Qed.

Lemma splitlines_join (ls : list str) (m : str) :
  Forall no_linebreak ls -> no_linebreak m -> m <> [] ->
  splitlines (join [NL] (ls ++ [m])) = ls ++ [m].
Proof.
  intros Hls Hm Hne. unfold splitlines.
  induction Hls as [|l ls Hl Hls IH].
  - simpl. rewrite <- (app_nil_r m) at 1. rewrite splitlines_from_line by done.
    rewrite app_nil_r. simpl. destruct (rev m) eqn:Hr.
    + apply (f_equal (@rev N)) in Hr. rewrite rev_involutive in Hr. done.
    + by rewrite <- Hr, rev_involutive.
  - change ((l :: ls) ++ [m]) with (l :: (ls ++ [m])).
    assert (Hj : join [NL] (l :: (ls ++ [m])) = l ++ NL :: join [NL] (ls ++ [m])).
    { destruct ls; reflexivity. }
    rewrite Hj, splitlines_from_line by done. rewrite app_nil_r.
    rewrite splitlines_from_NL, rev_involutive. by rewrite IH.
Qed.

Lemma splitlines_from_clean s : forall cur after_cr,
  no_linebreak cur -> Forall no_linebreak (splitlines_from cur after_cr s).
Proof.
  induction s as [|c s IH]; intros cur after_cr Hcur; simpl.
  - destruct cur; [constructor|]. constructor; [|constructor].
    unfold no_linebreak in *. rewrite forallb_forall in *. intros x Hx.
    apply Hcur. by apply in_rev.
  - destruct (after_cr && (c =? NL)%N); [by apply IH|].
    destruct (is_linebreak c) eqn:Hc.
    + constructor; [|by apply IH].
      unfold no_linebreak in *. rewrite forallb_forall in *. intros x Hx.
      apply Hcur. by apply in_rev.
    + apply IH. unfold no_linebreak. simpl. by rewrite Hc.
Qed.

Lemma splitlines_clean s : Forall no_linebreak (splitlines s).
Proof. by apply splitlines_from_clean. Qed.

Lemma no_linebreak_app a b : no_linebreak a -> no_linebreak b -> no_linebreak (a ++ b).
Proof. unfold no_linebreak. intros Ha Hb. by rewrite forallb_app, Ha, Hb. Qed.

Lemma string_of_uint_digits d :
  forallb is_digit (py (NilEmpty.string_of_uint d)) = true.
Proof. induction d; try done; simpl; exact IHd. Qed.

(** [str(i)] is made of digits, after a minus sign for a negative one. *)
Lemma str_of_int_chars z :
  forallb (fun c => is_digit c || (c =? 45)%N) (str_of_int z) = true.
Proof.
  assert (Hd : forall d,
    forallb (fun c => is_digit c || (c =? 45)%N) (py (NilEmpty.string_of_uint d))
    = true).
  { intros d. pose proof (string_of_uint_digits d) as H.
    rewrite forallb_forall in *. intros x Hx. by rewrite (H x Hx). }
  unfold str_of_int, NilZero.string_of_int, NilZero.string_of_uint.
  assert (Hneg : forall s, py (String "-" s) = 45%N :: py s) by reflexivity.
  destruct (Z.to_int z) as [d|d]; destruct d; try done;
    first [ apply Hd | rewrite Hneg; cbn [forallb]; rewrite Hd; reflexivity ].
Qed.

Lemma str_of_int_clean z : no_linebreak (str_of_int z).
Proof.
  pose proof (str_of_int_chars z) as H. unfold no_linebreak.
  rewrite forallb_forall in *. intros x Hx. specialize (H x Hx).
  apply orb_true_iff in H as [H|H].
  - unfold is_digit in H. apply andb_true_iff in H as [H1 H2].
    apply N.leb_le in H1, H2. unfold is_linebreak.
    repeat match goal with
    | |- context [(?a <=? ?b)%N] => destruct (N.leb_spec a b)
    | |- context [(?a =? ?b)%N] => destruct (N.eqb_spec a b)
    end; simpl; try done; lia.
  - apply N.eqb_eq in H. by subst x.
Qed.

Lemma join_snoc (sep : str) (ls : list str) (m : str) :
  ls <> [] -> join sep (ls ++ [m]) = join sep ls ++ sep ++ m.
Proof.
  induction ls as [|l ls IH]; [done|]. intros _.
  destruct ls as [|l' ls]; [done|].
  change (join sep ((l :: l' :: ls) ++ [m]))
    with (l ++ sep ++ join sep ((l' :: ls) ++ [m])).
  rewrite IH by done.
  change (join sep (l :: l' :: ls)) with (l ++ sep ++ join sep (l' :: ls)).
  by rewrite <- !app_assoc.
Qed.

(** X1. What [read_file] returns for a readable file has the lines of the
    file when there are at most 500 of them; when there are more it has
    501 lines: the first 500 lines of the file, then the one line of the
    notice.  Nothing is raised and the state is left as it was. *)
Theorem read_file_lines (E : Env) (path stored : str) (st : State) :
  fs st !! resolve E path = Some (File stored) ->
  let lines := splitlines (universal_newlines stored) in
  exists out,
    read_file E path st = (Ok out, st) /\
    (length lines <= 500 -> splitlines out = lines) /\
    (500 < length lines ->
     splitlines out
     = take 500 lines
       ++ [py "... [truncated, " ++ str_of_int (Z.of_nat (length lines - 500))
           ++ py " more lines]"]) /\
    length (splitlines out) <= 501.
Proof.
  intros Hfile lines. unfold read_file. rewrite Hfile. fold lines.
  destruct (500 <? length lines) eqn:Hlen.
  - apply Nat.ltb_lt in Hlen. eexists. split; [reflexivity|].
    set (marker := py "... [truncated, "
                   ++ str_of_int (Z.of_nat (length lines) - 500)
                   ++ py " more lines]").
    assert (Hsplit : splitlines (join [NL] (take 500 lines) ++ [NL] ++ marker)
                     = take 500 lines ++ [marker]).
    { rewrite <- join_snoc.
      - apply splitlines_join.
        + apply Forall_take, splitlines_clean.
        + subst marker. apply no_linebreak_app; [done|].
          apply no_linebreak_app; [apply str_of_int_clean|done].
        + done.
      - destruct lines; [simpl in Hlen; lia|done]. }
    split; [intros ?; lia|]. split.
    + intros _. rewrite Hsplit. subst marker.
      by replace (Z.of_nat (length lines) - 500)%Z
        with (Z.of_nat (length lines - 500)) by lia.
    + rewrite Hsplit, length_app, length_take. cbn [length]. lia.
  - apply Nat.ltb_ge in Hlen. eexists. split; [reflexivity|].
    split; [done|]. split; [intros ?; lia|]. fold lines. lia.
Qed.

Lemma read_file_lines_example :
  exists out,
    read_file demo_env (py "501.txt") demo_state = (Ok out, demo_state) /\
    splitlines out
    = repeat (py "x") 500 ++ [py "... [truncated, 1 more lines]"].
Proof.
  destruct (read_file_lines demo_env (py "501.txt") (lines_file 501) demo_state
              eq_refl) as (out & Hrun & _ & Hmore & _).
  exists out. split; [exact Hrun|].
  rewrite Hmore; [vm_compute; reflexivity | apply Nat.ltb_lt; vm_compute; reflexivity].
Defined.

(** ** Steps that read *)



Lemma only_logged_log e st : only_logged st (log e st).
Proof. by split. Qed.





(** ** search_files *)

Lemma splitlines_join_last (ls : list str) :
  Forall no_linebreak ls -> ls <> [] ->
  (forall m, last ls = Some m -> m <> []) ->
  splitlines (join [NL] ls) = ls.
Proof.
  intros Hclean Hne Hlast.
  destruct (exists_last Hne) as (init & m & ->).
  apply Forall_app in Hclean as [Hinit Hm].
  apply splitlines_join; [done | by inversion Hm |].
  apply Hlast. by rewrite last_snoc.
Qed.

Lemma indented_clean (ms : list str) :
  Forall no_linebreak ms ->
  Forall no_linebreak (map (fun m => py "  " ++ m) ms).
Proof.
  intros H. apply Forall_map. eapply Forall_impl; [exact H|].
  intros m Hm. by apply no_linebreak_app.
Qed.

Lemma listed_lines_clean (ms : list str) :
  Forall no_linebreak ms -> Forall no_linebreak (listed_lines ms).
Proof.
  intros H. unfold listed_lines. constructor.
  - apply no_linebreak_app; [done|].
    apply no_linebreak_app; [apply str_of_int_clean|done].
  - apply Forall_app. split.
    + apply indented_clean. by apply Forall_take.
    + destruct (50 <? length ms); constructor; [|constructor].
      apply no_linebreak_app; [done|].
      apply no_linebreak_app; [apply str_of_int_clean|done].
Qed.

Lemma listed_lines_last (ms : list str) (m : str) :
  last (listed_lines ms) = Some m -> m <> [].
Proof.
  unfold listed_lines.
  set (header := py "Found " ++ _ ++ _).
  set (shown := map _ (take 50 ms)).
  destruct (50 <? length ms).
  - rewrite app_comm_cons, last_snoc. by intros [= <-].
  - rewrite app_nil_r. destruct (decide (shown = [])) as [Hnil|Hne];
      [rewrite Hnil | destruct (exists_last Hne) as (init & x & Hx)].
    + simpl. by intros [= <-].
    + rewrite Hx, app_comm_cons, last_snoc. intros [= <-].
      assert (Hin : x ∈ shown) by (rewrite Hx; set_solver).
      subst shown. apply list_elem_of_fmap in Hin as (y & -> & _). done.
Qed.
Lemma search_files_output (matches : list str) :
  matches <> [] -> Forall no_linebreak matches ->
  let result :=
    py "Found " ++ str_of_int (Z.of_nat (length matches))
    ++ py " file(s):" ++ [NL]
    ++ join [NL] (map (fun m => py "  " ++ m) (take 50 matches)) in
  splitlines
    (if 50 <? length matches
     then result ++ [NL] ++ py "  ... and "
          ++ str_of_int (Z.of_nat (length matches) - 50) ++ py " more"
     else result)
  = listed_lines matches.
Proof.
  intros Hne Hclean result.
  assert (Hshown : map (fun m => py "  " ++ m) (take 50 matches) <> []).
  { destruct matches; [done|]. discriminate. }
  assert (Hjoin :
    (if 50 <? length matches
     then result ++ [NL] ++ py "  ... and "
          ++ str_of_int (Z.of_nat (length matches) - 50) ++ py " more"
     else result)
    = join [NL] (listed_lines matches)).
  { unfold listed_lines, result.
    set (header := py "Found " ++ str_of_int _ ++ py " file(s):").
    set (shown := map _ (take 50 matches)) in *.
    set (more := py "  ... and " ++ _ ++ _).
    assert (Hhead : forall rest, rest <> [] ->
              join [NL] (header :: rest) = header ++ [NL] ++ join [NL] rest).
    { intros [|r rest] Hr; [done|reflexivity]. }
    destruct (50 <? length matches).
    - rewrite Hhead by (destruct shown; done).
      rewrite join_snoc by done. subst header. by rewrite <- !app_assoc.
    - rewrite app_nil_r, Hhead by done. subst header. by rewrite <- !app_assoc. }
  rewrite Hjoin. apply splitlines_join_last.
  - by apply listed_lines_clean.
  - done.
  - apply listed_lines_last.
Qed.

(** X3. [search_files] asks for the matches of the pattern under the base
    and, only when there are none, for those of the pattern below any
    directory of it; it asks nothing else and changes neither a file nor
    the pending writes.  Without a match it says so; otherwise, for names
    without a line break, its output has one line that counts the matches,
    one line for each of the first 50 of them, indented by two spaces, and
    when there are more than 50 one closing line that counts the rest. *)
Theorem search_files_listing (E : Env) (pattern path : str) (st : State)
    (found : list str) :
  let k := count is_glob st in
  glob E k path pattern = Ok found /\ found <> [] \/
  glob E k path pattern = Ok [] /\
  glob E (S k) path (py "**/" ++ pattern) = Ok found ->
  exists out st',
    search_files E pattern path st = (Ok out, st') /\
    only_logged st st' /\
    trace st'
    = trace st ++ EvGlob path pattern
      :: match glob E k path pattern with
         | Ok [] => [EvGlob path (py "**/" ++ pattern)]
         | _ => []
         end /\
    (found = [] ->
     out = py "No files found matching '" ++ pattern ++ py "' in '" ++ path
           ++ py "'") /\
    (found <> [] -> Forall no_linebreak found ->
     splitlines out = listed_lines found /\
     length (splitlines out) <= 52).
Proof.
  intros k Hglob.
  assert (Hlen : forall ms : list str, length (listed_lines ms) <= 52).
  { intros ms. unfold listed_lines. cbn [length].
    rewrite length_app, length_map, length_take.
    destruct (50 <? length ms); cbn [length]; lia. }
  unfold search_files, bind, sorted_glob, ret. fold k.
  destruct Hglob as [[Hdirect Hne] | [Hdirect Hdeep]]; rewrite Hdirect.
  - destruct found as [|m ms]; [done|]. cbn beta iota.
    pose proof (search_files_output (m :: ms) Hne) as Hout. cbn zeta in Hout.
    destruct (50 <? length (m :: ms));
      (eexists _, _; split; [reflexivity|]; split; [apply only_logged_log|];
       split; [reflexivity|]; split; [done|];
       intros _ Hclean; specialize (Hout Hclean);
       split; [exact Hout | rewrite Hout; apply Hlen]).
  - cbn beta iota. rewrite count_log. cbn [is_glob]. rewrite Nat.add_1_r.
    fold k. rewrite Hdeep.
    destruct found as [|m ms].
    + eexists _, _. split; [reflexivity|].
      split; [split; reflexivity|]. split; [|done].
      cbn [trace log]. by rewrite <- app_assoc.
    + cbn beta iota.
      assert (Hne : m :: ms <> []) by done.
      pose proof (search_files_output (m :: ms) Hne) as Hout. cbn zeta in Hout.
      destruct (50 <? length (m :: ms));
        (eexists _, _; split; [reflexivity|]; split; [split; reflexivity|];
         split; [cbn [trace log]; by rewrite <- app_assoc|];
         split; [done|]; intros _ Hclean; specialize (Hout Hclean);
         split; [exact Hout | rewrite Hout; apply Hlen]).
Qed.
Lemma search_files_listing_example :
  exists out st',
    search_files willing_env (py "*.py") (py ".") demo_state = (Ok out, st') /\
    trace st' = [EvGlob (py ".") (py "*.py"); EvGlob (py ".") (py "**/*.py")] /\
    splitlines out
    = [py "Found 2 file(s):"; py "  src/a.py"; py "  src/b.py"].
Proof.
  destruct (search_files_listing willing_env (py "*.py") (py ".") demo_state
              [py "src/a.py"; py "src/b.py"])
    as (out & st' & Hrun & _ & Htrace & _ & Hlines).
  - right. split; reflexivity.
  - exists out, st'. split; [exact Hrun|]. split; [exact Htrace|].
    refine (proj1 (Hlines _ _)); [discriminate|].
    repeat constructor.
Defined.

Section ReadOnlyTools.
Context (E : Env).

Lemma search_files_only_logged pattern path st :
  only_logged st (search_files E pattern path st).2.
Proof.
  unfold search_files, bind, sorted_glob, ret.
  repeat match goal with
         | |- context [glob E ?k ?b ?p] =>
             destruct (glob E k b p) as [[|? ?]|?]; simpl
         | |- context [50 <? ?k] => destruct (50 <? k); simpl
         end; by split.
Qed.



Lemma execute_tool_search_files (s : PlanStep) (st : State) :
  tool s = py "search_files" ->
  _execute_tool E s st
  = try_except (search_files E (args_get s (py "pattern") (py "*"))
                               (args_get s (py "path") (py ".")))
      (fun e => py "Error in " ++ tool s ++ py ": " ++ exn_msg e) st.
Proof.
  intros Htool. unfold _execute_tool. rewrite Htool.
  change (TOOL_MAP !! py "search_files") with (Some fn_search_files).
  destruct (decide (py "search_files" = py "read_file")); [names_differ|].
  destruct (decide (py "search_files" = py "write_file")); [names_differ|].
  by destruct (decide (py "search_files" = py "search_files")).
Qed.

End ReadOnlyTools.

(** X4. A [search_files] step passes [args.pattern], or ["*"] when there is
    none, and [args.path], or ["."] when there is none, to [search_files];
    its output is what [search_files] returns, or, when the search raises,
    the error text of the executor with the message of the exception.  In
    both cases no file and no pending write changes, and nothing but
    searches is added to the trace. *)
Theorem search_files_step_dispatch (E : Env) (s : PlanStep) (st : State) :
  tool s = py "search_files" ->
  let pattern := args_get s (py "pattern") (py "*") in
  let path := args_get s (py "path") (py ".") in
  (args s !! py "pattern" = None -> pattern = py "*") /\
  (args s !! py "path" = None -> path = py ".") /\
  _execute_tool E s st
  = match search_files E pattern path st with
    | (Ok out, st') => (out, st')
    | (Raise e, st') => (py "Error in search_files: " ++ exn_msg e, st')
    end /\
  (forall e, glob E (count is_glob st) path pattern = Raise e ->
   _execute_tool E s st
   = (py "Error in search_files: " ++ exn_msg e, log (EvGlob path pattern) st)) /\
  only_logged st (_execute_tool E s st).2 /\
  grows_by is_glob st (_execute_tool E s st).2.
Proof.
  intros Htool pattern path.
  pose proof (execute_tool_search_files E s st Htool) as Hshape.
  fold pattern path in Hshape. unfold try_except in Hshape. rewrite Htool in Hshape.
  assert (Hstate : (_execute_tool E s st).2 = (search_files E pattern path st).2).
  { rewrite Hshape. by destruct (search_files E pattern path st) as [[out|e] st']. }
  split; [|split; [|split; [|split; [|split]]]].
  - intros Hnone. subst pattern. unfold args_get. by rewrite Hnone.
  - intros Hnone. subst path. unfold args_get. by rewrite Hnone.
  - exact Hshape.
  - intros e He. rewrite Hshape. unfold search_files, bind, sorted_glob.
    by rewrite He.
  - rewrite Hstate. apply search_files_only_logged.
  - rewrite Hstate. apply search_files_grows.
Qed.

Lemma search_files_step_dispatch_example :
  let s := {| n := 2; description := py "find"; tool := py "search_files";
              args := ∅ |} in
  _execute_tool demo_env s demo_state
  = (py "No files found matching '*' in '.'",
     log (EvGlob (py ".") (py "**/*")) (log (EvGlob (py ".") (py "*")) demo_state)).
Proof.
  intros s.
  exact (proj1 (proj2 (proj2 (search_files_step_dispatch demo_env s demo_state
                                eq_refl)))).
Defined.

(** ** write_file *)




Section WriteOutcomes.
Context (E : Env).



End WriteOutcomes.




(** ** What a run keeps *)

Section Preserved.
Context (E : Env) (P : State -> Prop).
Hypothesis P_logged : forall st st', only_logged st st' -> P st -> P st'.
Hypothesis P_write :
  forall path content skip_confirm st,
    P st -> P (write_file E path content skip_confirm st).2.






End Preserved.





(** ** run_cmd when the spawn fails *)








(** ** More on execute_plan *)

Section PlanRuns.
Context (E : Env).




End PlanRuns.



Section AnswersAndResults.
Context (E : Env).


End AnswersAndResults.

Section NoYes.
Context (E : Env).


End NoYes.



(** ** What _parse_plan_json raises *)










Lemma parse_plan_arguments_around (pre J post : str) (data : json) :
  head J = Some 123%N -> last J = Some 125%N ->
  123%N ∉ pre -> 125%N ∉ post ->
  loads J = Some data ->
  parse_plan_arguments (pre ++ J ++ post) = plan_arguments data.
Proof.
  intros Hh Hl Hpre Hpost Hloads.
  destruct (strip_fences_around pre J post (loads_lexical J _ Hloads) Hh Hl)
    as (p & q & Hstrip & Hp & Hq).
  unfold parse_plan_arguments. rewrite Hstrip.
  rewrite (search_braces_around p J q Hh Hl); [|by intros ?%Hp|by intros ?%Hq].
  by rewrite Hloads.
Qed.

Lemma steps_fields_first_bad (good : list json) (bad : json) (rest : list json)
    (e : error) :
  Forall (fun entry => exists f, has_fields entry f) good ->
  step_fields bad = Raise e ->
  steps_fields (good ++ bad :: rest) = Raise e.
Proof.
  intros Hgood Hbad. induction Hgood as [|entry good [f Hf] _ IH]; simpl.
  - by rewrite Hbad.
  - by rewrite (has_fields_step entry f Hf), IH.
Qed.

(** X14. When the steps of the reply are well-formed up to one that is an
    object without [n], without [description] or without [tool],
    [_parse_plan_json] raises [KeyError] for the first of these three keys
    that this step lacks, whatever follows it and whatever fences or prose
    without braces stand around the object. *)
Theorem parse_plan_json_missing_key (pre J post : str)
    (m : list (str * json)) (good : list json) (bad : list (str * json))
    (rest : list json) :
  head J = Some 123%N -> last J = Some 125%N ->
  123%N ∉ pre -> 125%N ∉ post ->
  loads J = Some (JObj m) ->
  dict_get (py "steps") m = Some (JArr (good ++ JObj bad :: rest)) ->
  Forall (fun entry => exists f, has_fields entry f) good ->
  let raised key := _parse_plan_json (pre ++ J ++ post) = Raise (KeyError key) in
  (dict_get (py "n") bad = None -> raised (py "n")) /\
  (dict_get (py "n") bad <> None -> dict_get (py "description") bad = None ->
   raised (py "description")) /\
  (dict_get (py "n") bad <> None -> dict_get (py "description") bad <> None ->
   dict_get (py "tool") bad = None -> raised (py "tool")).
Proof.
  intros Hh Hl Hpre Hpost Hloads Hsteps Hgood raised.
  assert (Hraise : forall key,
    step_fields (JObj bad) = Raise (KeyError key) -> raised key).
  { intros key Hbad. unfold raised, _parse_plan_json.
    rewrite (parse_plan_arguments_around pre J post _ Hh Hl Hpre Hpost Hloads).
    unfold plan_arguments. rewrite Hsteps.
    change (iterate_steps (default (JArr []) (Some (JArr (good ++ JObj bad :: rest)))))
      with (@Ok error _ (good ++ JObj bad :: rest)).
    cbv beta iota. by rewrite (steps_fields_first_bad good _ rest _ Hgood Hbad). }
  split; [|split].
  - intros Hn. apply Hraise. unfold step_fields. by rewrite Hn.
  - intros Hn Hd. apply Hraise. unfold step_fields.
    destruct (dict_get (py "n") bad); [|done]. by rewrite Hd.
  - intros Hn Hd Ht. apply Hraise. unfold step_fields.
    destruct (dict_get (py "n") bad); [|done].
    destruct (dict_get (py "description") bad); [|done]. by rewrite Ht.
Qed.

Lemma parse_plan_json_missing_key_example :
  _parse_plan_json reply_without_n = Raise (KeyError (py "n")).
Proof.
  pose proof (parse_plan_json_missing_key [] reply_without_n []
                [(py "summary", JStr (py "demo"));
                 (py "steps",
                  JArr [JObj [(py "description", JStr (py "read main"));
                              (py "tool", JStr (py "read_file"))]])]
                []
                [(py "description", JStr (py "read main"));
                 (py "tool", JStr (py "read_file"))]
                [] eq_refl eq_refl) as H.
  rewrite app_nil_r in H.
  refine (proj1 (H _ _ eq_refl eq_refl _) eq_refl).
  - apply not_elem_of_nil.
  - apply not_elem_of_nil.
  - constructor.
Defined.

(** ** More on the fix loop *)



Section FixLoopBounds.
Context (E : Env).

Lemma generate_plan_state task context_path model st :
  (generate_plan E task context_path model st).2 = log (EvChat task context_path) st.
Proof.
  unfold generate_plan. destruct (stream_chat E _ _ _ _) as [raw|e]; [|done].
  by destruct (_parse_plan_json raw).
Qed.

Lemma execute_plan_counts plan dry_run st :
  let after := (execute_plan E plan dry_run st).2 in
  count is_chat after = count is_chat st /\
  count is_typer_confirm after = count is_typer_confirm st /\
  count is_summary after = S (count is_summary st).
Proof.
  cbv zeta. pose proof (execute_plan_grows E plan dry_run st) as Hg.
  split; [|split].
  - eapply grows_by_count; [|exact Hg]. by intros [].
  - eapply grows_by_count; [|exact Hg]. by intros [].
  - apply execute_plan_summary_count.
Qed.

Lemma run_cmd_counts command cwd capture skip_confirm st :
  let after := (run_cmd E command cwd capture skip_confirm st).2 in
  count is_chat after = count is_chat st /\
  count is_typer_confirm after = count is_typer_confirm st /\
  count is_summary after = count is_summary st.
Proof.
  cbv zeta. pose proof (run_cmd_grows E command cwd capture skip_confirm st) as Hg.
  repeat split; (eapply grows_by_count; [|exact Hg]); by intros [].
Qed.

Lemma fix_iterations_bounded command context max_iterations :
  forall remaining iteration failure_output st,
    let after := (fix_iterations E remaining iteration max_iterations command
                    failure_output context st).2 in
    count is_chat after <= count is_chat st + remaining /\
    count is_typer_confirm after <= count is_typer_confirm st + remaining /\
    count is_summary after <= count is_summary st + remaining.
Proof.
  induction remaining as [|remaining IH]; intros iteration failure_output st;
    cbn [fix_iterations]; cbv zeta.
  { cbn [snd]. rewrite !count_log. simpl. lia. }
  set (st1 := log _ st).
  assert (H1 : count is_chat st1 = count is_chat st /\
               count is_typer_confirm st1 = count is_typer_confirm st /\
               count is_summary st1 = count is_summary st).
  { subst st1. rewrite !count_log. simpl. lia. }
  pose proof (generate_plan_state (fix_task command failure_output) context None
                st1) as Hg.
  destruct (generate_plan E _ context None st1) as [[plan|e] st2]; simpl in Hg;
    subst st2.
  2:{ destruct (caught e); cbn [snd]; rewrite !count_log; simpl; lia. }
  unfold confirm. set (st3 := log (EvTyperConfirm _ _) _).
  assert (H3 : count is_chat st3 = S (count is_chat st) /\
               count is_typer_confirm st3 = S (count is_typer_confirm st) /\
               count is_summary st3 = count is_summary st).
  { subst st3. rewrite !count_log. simpl. lia. }
  destruct (typer_confirm E _); cbn [negb].
  2:{ cbn [snd]. rewrite !count_log. simpl. lia. }
  pose proof (execute_plan_counts plan false st3) as H4. cbv zeta in H4.
  destruct (execute_plan E plan false st3) as [results st4]. cbn [snd] in H4.
  set (st5 := log _ st4).
  assert (H5 : count is_chat st5 = S (count is_chat st) /\
               count is_typer_confirm st5 = S (count is_typer_confirm st) /\
               count is_summary st5 = S (count is_summary st)).
  { subst st5. rewrite !count_log. simpl. lia. }
  pose proof (run_cmd_counts command context true true st5) as H6. cbv zeta in H6.
  destruct (run_cmd E command context true true st5)
    as [[[[rc out] err]|err] st6]; cbn [snd] in H6 |- *; [|lia].
  destruct (rc =? 0)%Z.
  - cbn [snd]. rewrite !count_log. simpl. lia.
  - set (st7 := log _ st6).
    assert (H7 : count is_chat st7 = S (count is_chat st) /\
                 count is_typer_confirm st7 = S (count is_typer_confirm st) /\
                 count is_summary st7 = S (count is_summary st)).
    { subst st7. rewrite !count_log. simpl. lia. }
    specialize (IH (iteration + 1)%Z (combined_output out err) st7).
    cbv zeta in IH. lia.
Qed.

End FixLoopBounds.

(** X16. Whatever the model, the operator and the shell answer, the fix
    loop asks the model for at most [max_iterations] plans, asks the
    operator to accept a plan at most as often, and executes at most as
    many plans; with a [max_iterations] of 0 or less it does nothing but
    report that it could not fix the failure. *)
Theorem fix_loop_bounded (E : Env) (command failure_output context : str)
    (max_iterations : Z) (st : State) :
  let after := (_fix_loop E command failure_output context max_iterations st).2 in
  count is_chat after <= count is_chat st + Z.to_nat max_iterations /\
  count is_typer_confirm after
  <= count is_typer_confirm st + Z.to_nat max_iterations /\
  count is_summary after <= count is_summary st + Z.to_nat max_iterations /\
  ((max_iterations <= 0)%Z ->
   _fix_loop E command failure_output context max_iterations st
   = (Ok tt, log (EvStatus (CouldNotFix max_iterations)) st)).
Proof.
  cbv zeta.
  pose proof (fix_iterations_bounded E command context max_iterations
                (Z.to_nat max_iterations) 1 failure_output st) as H.
  cbv zeta in H. fold (_fix_loop E command failure_output context max_iterations)
    in H.
  destruct H as (H1 & H2 & H3). repeat split; try done.
  intros Hmax. unfold _fix_loop.
  by replace (Z.to_nat max_iterations) with 0 by lia.
Qed.



(** ** nv run *)



(** ** nv code *)

Section Tally.
Context (E : Env).



End Tally.



(** ** nv patch apply *)





(** ** The file tree *)

Import RepoContext.

Lemma insert_sorted_elem (e x : str * Kind) (l : list (str * Kind)) :
  x ∈ insert_sorted e l <-> x = e \/ x ∈ l.
Proof.
  induction l as [|y l IH]; simpl.
  { rewrite elem_of_nil, list_elem_of_singleton. tauto. }
  destruct (key_lt y e); [|by rewrite elem_of_cons].
  rewrite elem_of_cons, IH, elem_of_cons. tauto.
Qed.

Lemma sorted_elem (x : str * Kind) (l : list (str * Kind)) :
  x ∈ sorted l <-> x ∈ l.
Proof.
  unfold sorted. induction l as [|y l IH]; simpl; [done|].
  rewrite insert_sorted_elem, IH, elem_of_cons. tauto.
Qed.

(** The equation of the source: nothing beyond [max_depth], nothing for a
    directory that cannot be listed, and otherwise for each entry that is
    not passed over its line, followed, for a directory, by the lines of
    the call one level down. *)
Lemma _build_tree_unfold (R : Repo) (path : list str) (prefix : str)
    (depth max_depth : nat) :
  _build_tree R path prefix depth max_depth
  = if max_depth <? depth then []
    else
      match iterdir R path with
      | None => []
      | Some listing =>
          let entries := sorted listing in
          flat_map
            (fun entry =>
               if passed_over entry.1 then []
               else
                 (prefix ++ (if is_last entries entry then CORNER else TEE)
                  ++ entry.1)
                 :: match entry.2 with
                    | Directory =>
                        _build_tree R (path ++ [entry.1])
                          (prefix
                           ++ (if is_last entries entry then BLANK else BAR))
                          (S depth) max_depth
                    | _ => []
                    end)
            entries
      end.
Proof.
  unfold _build_tree. destruct (max_depth <? depth) eqn:Hd.
  - apply Nat.ltb_lt in Hd. by replace (S max_depth - depth) with 0 by lia.
  - apply Nat.ltb_ge in Hd.
    replace (S max_depth - depth) with (S (max_depth - depth)) by lia.
    by replace (S max_depth - S depth) with (max_depth - depth) by lia.
Qed.

Lemma tree_lines_sound (R : Repo) (levels : nat) :
  forall path prefix line,
    line ∈ tree_lines R levels path prefix ->
    exists sub indent connector name,
      line = prefix ++ indent ++ connector ++ name /\
      length indent = 4 * length sub /\
      length sub < levels /\
      (connector = CORNER \/ connector = TEE) /\
      shown R path sub name.
Proof.
  induction levels as [|levels IH]; intros path prefix line; cbn [tree_lines].
  { by intros ?%elem_of_nil. }
  destruct (iterdir R path) as [listing|] eqn:Hlist; [|by intros ?%elem_of_nil].
  cbv zeta. rewrite list_elem_of_In, in_flat_map.
  intros ([name kind] & Hentry & Hline).
  rewrite <- list_elem_of_In, sorted_elem in Hentry. cbn [fst snd] in Hline.
  destruct (passed_over name) eqn:Hname; [done|].
  apply list_elem_of_In, elem_of_cons in Hline. destruct Hline as [->|Hline].
  - exists [], [], (if is_last (sorted listing) (name, kind) then CORNER else TEE),
           name.
    split; [done|]. split; [done|]. split; [simpl; lia|].
    split; [destruct (is_last _ _); auto|].
    split; [constructor|]. exists listing, kind. rewrite app_nil_r. auto.
  - destruct kind;
      [by apply elem_of_nil in Hline| |by apply elem_of_nil in Hline].
    apply IH in Hline
      as (sub & indent & connector & name' & -> & Hlen & Hsub & Hconn & Hshown).
    exists (name :: sub),
           ((if is_last (sorted listing) (name, Directory) then BLANK else BAR)
            ++ indent),
           connector, name'.
    split; [by rewrite <- !app_assoc|].
    split; [rewrite length_app; destruct (is_last _ _); simpl; lia|].
    split; [simpl; lia|]. split; [done|].
    destruct Hshown as (Henters & listing' & kind' & Hl' & Hin' & Hvis').
    split; [by econstructor|]. exists listing', kind'.
    by rewrite <- app_assoc in Hl'.
Qed.

Lemma tree_lines_complete (R : Repo) (levels : nat) :
  forall path prefix sub name,
    shown R path sub name -> length sub < levels ->
    exists indent connector,
      length indent = 4 * length sub /\
      (connector = CORNER \/ connector = TEE) /\
      prefix ++ indent ++ connector ++ name ∈ tree_lines R levels path prefix.
Proof.
  induction levels as [|levels IH]; intros path prefix sub name Hshown Hlen;
    [lia|].
  destruct Hshown as (Henters & listing & kind & Hlist & Hin & Hvis).
  cbn [tree_lines]. destruct Henters as [path|path dir listing0 sub Hl0 Hdir Hdvis Hrest].
  - rewrite app_nil_r in Hlist. rewrite Hlist. cbv zeta.
    exists [], (if is_last (sorted listing) (name, kind) then CORNER else TEE).
    split; [done|]. split; [destruct (is_last _ _); auto|].
    rewrite list_elem_of_In, in_flat_map. exists (name, kind).
    split; [by apply list_elem_of_In, sorted_elem|].
    cbn [fst snd]. rewrite Hvis. apply list_elem_of_In, elem_of_cons. by left.
  - rewrite Hl0. cbv zeta.
    set (ext := if is_last (sorted listing0) (dir, Directory) then BLANK else BAR).
    destruct (IH (path ++ [dir]) (prefix ++ ext) sub name)
      as (indent & connector & Hilen & Hconn & Hline).
    { split; [done|]. exists listing, kind. by rewrite <- app_assoc. }
    { simpl in Hlen. lia. }
    exists (ext ++ indent), connector.
    split; [rewrite length_app; subst ext; destruct (is_last _ _); simpl; lia|].
    split; [done|].
    rewrite list_elem_of_In, in_flat_map. exists (dir, Directory).
    split; [by apply list_elem_of_In, sorted_elem|].
    cbn [fst snd]. rewrite Hdvis. apply list_elem_of_In, elem_of_cons. right.
    fold ext. by rewrite <- !app_assoc in Hline |- *.
Qed.

(** X21. The lines of [_build_tree] are exactly the entries that are not
    passed over (the names of the skip set, names ending in [.egg-info],
    names that start with a dot other than [.env]) and that are reached
    from the start through directories that are themselves not passed
    over and can be listed, down to [max_depth] levels below a start at
    depth 0 and no further.  The line of an entry [k] levels down is the
    prefix, [4 * k] more characters, a connector and the name. *)
Theorem build_tree_lists_exactly (R : Repo) (path : list str) (prefix : str)
    (depth max_depth : nat) :
  (forall line,
     line ∈ _build_tree R path prefix depth max_depth ->
     exists sub indent connector name,
       line = prefix ++ indent ++ connector ++ name /\
       length indent = 4 * length sub /\
       depth + length sub <= max_depth /\
       (connector = CORNER \/ connector = TEE) /\
       shown R path sub name) /\
  (forall sub name,
     shown R path sub name -> depth + length sub <= max_depth ->
     exists indent connector,
       length indent = 4 * length sub /\
       (connector = CORNER \/ connector = TEE) /\
       prefix ++ indent ++ connector ++ name
       ∈ _build_tree R path prefix depth max_depth).
Proof.
  unfold _build_tree. split.
  - intros line Hline.
    destruct (tree_lines_sound R _ path prefix line Hline)
      as (sub & indent & connector & name & H1 & H2 & H3 & H4 & H5).
    exists sub, indent, connector, name.
    split; [done|]. split; [done|]. split; [lia|]. by split.
  - intros sub name Hshown Hdepth.
    apply tree_lines_complete; [done|lia].
Qed.
Lemma build_tree_lists_exactly_example :
  exists indent connector,
    length indent = 4 /\
    indent ++ connector ++ py "main.py" ∈ _build_tree demo_repo [] [] 0 3.
Proof.
  destruct (proj2 (build_tree_lists_exactly demo_repo [] [] 0 3)
              [py "src"] (py "main.py")) as (indent & connector & Hlen & _ & Hin).
  - split.
    + eapply (enters_down demo_repo [] (py "src")); [reflexivity| |reflexivity|constructor].
      do 2 apply list_elem_of_further. apply list_elem_of_here.
    + exists [(py "main.py", RegularFile)], RegularFile.
      split; [reflexivity|]. split; [|reflexivity].
      apply list_elem_of_singleton. reflexivity.
  - simpl. lia.
  - exists indent, connector. split; [exact Hlen|exact Hin].
Defined.

(** X22. In the lines of one directory the corner connector belongs to the
    entry that comes last in sort order, shown or not: when that entry is
    not passed over its line has the corner; when it is passed over no
    line of the directory has one, every line of the directory and of what
    lies below it beginning, after the prefix, with a tee or with a bar. *)
Theorem build_tree_corner (R : Repo) (path : list str) (prefix : str)
    (depth max_depth : nat) (listing : list (str * Kind)) (l : str * Kind) :
  depth <= max_depth ->
  iterdir R path = Some listing ->
  last (sorted listing) = Some l ->
  let lines := _build_tree R path prefix depth max_depth in
  (passed_over l.1 = false -> prefix ++ CORNER ++ l.1 ∈ lines) /\
  (passed_over l.1 = true ->
   Forall (fun line => exists rest,
             line = prefix ++ TEE ++ rest \/ line = prefix ++ BAR ++ rest)
     lines).
Proof.
  intros Hdepth Hlist Hlast lines. subst lines. unfold _build_tree.
  replace (S max_depth - depth) with (S (max_depth - depth)) by lia.
  cbn [tree_lines]. rewrite Hlist. cbv zeta. split.
  - intros Hvis. rewrite list_elem_of_In, in_flat_map. exists l. split.
    + apply list_elem_of_In. apply last_Some_elem_of in Hlast. exact Hlast.
    + rewrite Hvis. apply list_elem_of_In, elem_of_cons. left.
      unfold is_last. rewrite Hlast. by rewrite bool_decide_eq_true_2.
  - intros Hpassed. apply Forall_forall. intros line.
    rewrite list_elem_of_In, in_flat_map. intros ([name kind] & _ & Hline).
    cbn [fst snd] in Hline. destruct (passed_over name) eqn:Hname; [done|].
    assert (Hnot : is_last (sorted listing) (name, kind) = false).
    { unfold is_last. rewrite Hlast. apply bool_decide_eq_false_2.
      cbn [fst]. intros ->. congruence. }
    rewrite Hnot in Hline. apply list_elem_of_In, elem_of_cons in Hline.
    destruct Hline as [->|Hline]; [eauto|].
    destruct kind;
      [by apply elem_of_nil in Hline| |by apply elem_of_nil in Hline].
    apply tree_lines_sound in Hline as (sub & indent & conn & nm & -> & _).
    exists (indent ++ conn ++ nm). right. by rewrite <- !app_assoc.
Qed.

Lemma build_tree_corner_example :
  _build_tree demo_repo [] [] 0 3
  = [TEE ++ py "src"; BAR ++ CORNER ++ py "main.py"; TEE ++ py "README.md"] /\
  Forall (fun line => exists rest, line = TEE ++ rest \/ line = BAR ++ rest)
    (_build_tree demo_repo [] [] 0 3).
Proof.
  split; [vm_compute; reflexivity|].
  refine (proj2 (build_tree_corner demo_repo [] [] 0 3 _
                   (py "setup.egg-info", RegularFile) _ eq_refl _) eq_refl).
  - lia.
  - vm_compute. reflexivity.
Defined.

(** ** The excerpt of nv logs analyze *)

(** X23. Of a log of [n] lines [nv logs analyze] keeps the last [tail]
    lines when [0 < tail < n] and all of them when [tail >= n].  With
    [--tail 0] it keeps the whole log, not an empty one, since [lines[-0:]]
    is the whole list; with a negative [tail] it leaves out the first
    [-tail] lines and keeps the rest. *)
Theorem log_excerpt_tail (content : str) (tail : Z) :
  let lines := splitlines content in
  let n := length lines in
  Logs.log_excerpt content tail = join [NL] (Logs.excerpt_lines content tail) /\
  ((0 < tail < Z.of_nat n)%Z ->
   Logs.excerpt_lines content tail = drop (n - Z.to_nat tail) lines /\
   length (Logs.excerpt_lines content tail) = Z.to_nat tail) /\
  ((Z.of_nat n <= tail)%Z -> Logs.excerpt_lines content tail = lines) /\
  (tail = 0%Z -> Logs.excerpt_lines content tail = lines) /\
  ((tail < 0)%Z ->
   Logs.excerpt_lines content tail = drop (Z.to_nat (- tail)) lines).
Proof.
  cbv zeta. unfold Logs.excerpt_lines, Logs.slice_from.
  split; [done|]. split; [|split; [|split]].
  - intros Htail.
    destruct (Z.ltb_spec tail (Z.of_nat (length (splitlines content)))); [|lia].
    destruct (Z.ltb_spec (- tail) 0); [|lia].
    replace (Z.to_nat (Z.max 0 (- tail + Z.of_nat (length (splitlines content)))))
      with (length (splitlines content) - Z.to_nat tail) by lia.
    split; [done|]. rewrite length_drop. lia.
  - intros Htail.
    by destruct (Z.ltb_spec tail (Z.of_nat (length (splitlines content)))); [lia|].
  - intros ->. destruct (Z.ltb_spec 0 (Z.of_nat (length (splitlines content))));
      [|done].
    reflexivity.
  - intros Htail.
    destruct (Z.ltb_spec tail (Z.of_nat (length (splitlines content)))); [|lia].
    by destruct (Z.ltb_spec (- tail) 0); [lia|].
Qed.

Lemma log_excerpt_tail_example :
  Logs.excerpt_lines (lines_file 5) 2 = [py "x"; py "x"] /\
  Logs.excerpt_lines (lines_file 5) 0 = repeat (py "x") 5.
Proof.
  destruct (log_excerpt_tail (lines_file 5) 2) as (_ & Hlast & _).
  destruct (log_excerpt_tail (lines_file 5) 0) as (_ & _ & _ & Hzero & _).
  split.
  - rewrite (proj1 (Hlast ltac:(vm_compute; split; reflexivity))).
    vm_compute. reflexivity.
  - rewrite (Hzero eq_refl). vm_compute. reflexivity.
Defined.

(** ** Strings through json.dumps and json.loads *)

Import Dumps Memory.

Lemma escape_char_plain (c : N) :
  (32 <= c)%N -> c <> QUOTE -> c <> BACKSLASH -> escape_char c = [c].
Proof.
  intros Hge Hq Hb. unfold escape_char.
  destruct (N.eqb_spec c QUOTE); [done|].
  destruct (N.eqb_spec c BACKSLASH); [done|].
  repeat match goal with
         | |- context [(c =? ?k)%N] => destruct (N.eqb_spec c k); [lia|]
         end.
  destruct (N.ltb_spec c 32); [lia|done].
Qed.

(** Reading back what has been written for one character. *)
Lemma scanstring_escape_char (c : N) (fuel : nat) (acc rest : str) :
  scanstring (S fuel) acc (escape_char c ++ rest) = scanstring fuel (c :: acc) rest.
Proof.
  destruct (N.ltb_spec c 32) as [Hlow|Hhigh].
  - assert (Hin : c ∈ map N.of_nat (seq 0 32)).
    { apply list_elem_of_fmap. exists (N.to_nat c). split; [lia|].
      apply elem_of_seq. lia. }
    clear Hlow. revert Hin. generalize c. apply Forall_forall.
    cbn [seq map].
    repeat (apply Forall_cons; split; [cbn; reflexivity|]). constructor.
  - destruct (N.eq_dec c QUOTE) as [->|Hq]; [done|].
    destruct (N.eq_dec c BACKSLASH) as [->|Hb]; [done|].
    rewrite escape_char_plain by done. cbn [app scanstring].
    destruct (N.eqb_spec c QUOTE); [done|].
    destruct (N.ltb_spec c 32); [lia|].
    by destruct (N.eqb_spec c BACKSLASH).
Qed.
Lemma scanstring_escaped (s : str) : forall (fuel : nat) (acc rest : str),
  length s < fuel ->
  scanstring fuel acc (flat_map escape_char s ++ QUOTE :: rest)
  = Some (rev acc ++ s, rest).
Proof.
  induction s as [|c s IH]; intros fuel acc rest Hfuel.
  - destruct fuel as [|fuel]; [simpl in Hfuel; lia|].
    simpl. by rewrite app_nil_r.
  - destruct fuel as [|fuel]; [simpl in Hfuel; lia|].
    cbn [flat_map]. rewrite <- app_assoc, scanstring_escape_char.
    rewrite IH by (simpl in Hfuel; lia). cbn [rev]. by rewrite <- app_assoc.
Qed.

Lemma escape_char_length (c : N) : 1 <= length (escape_char c).
Proof.
  unfold escape_char.
  repeat match goal with
         | |- context [if ?b then _ else _] => destruct b
         end; simpl; lia.
Qed.

Lemma escaped_length (s : str) : length s <= length (flat_map escape_char s).
Proof.
  induction s as [|c s IH]; [done|]. cbn [flat_map]. rewrite length_app.
  pose proof (escape_char_length c). simpl. lia.
Qed.

(** A str that has been written is read back as it was. *)
Lemma scan_once_basestring (s rest : str) (fuel : nat) :
  scan_once (S fuel) (encode_basestring s ++ rest) = Some (JStr s, rest).
Proof.
  unfold encode_basestring. cbn [app scan_once].
  change (QUOTE =? QUOTE)%N with true. cbv iota.
  rewrite <- app_assoc. cbn [app].
  rewrite scanstring_escaped; [done|].
  rewrite length_app. pose proof (escaped_length s). simpl. lia.
Qed.

Lemma scanstring_key (s rest : str) :
  scanstring (length (flat_map escape_char s ++ QUOTE :: rest)) []
    (flat_map escape_char s ++ QUOTE :: rest)
  = Some (s, rest).
Proof.
  rewrite scanstring_escaped; [done|].
  rewrite length_app. pose proof (escaped_length s). simpl. lia.
Qed.
(** ** Ints through json.dumps and json.loads *)



Lemma to_uint_head (p : positive) (u : Decimal.uint) :
  Pos.to_uint p <> Decimal.D0 u.
Proof.
  intros Hd.
  pose proof (DecimalPos.Unsigned.to_of (Pos.to_uint p)) as Hnorm.
  rewrite DecimalPos.Unsigned.of_to in Hnorm.
  change (N.to_uint (N.pos p)) with (Pos.to_uint p) in Hnorm.
  rewrite Hd, unorm_D0 in Hnorm.
  destruct u as [| | | | | | | | | |].
  { by apply (DecimalPos.Unsigned.to_uint_nonzero p). }
  all: match type of Hnorm with
       | _ = Decimal.unorm ?u =>
           pose proof (nb_digits_unorm u ltac:(discriminate)) as Hlen;
           rewrite <- Hnorm in Hlen; simpl in Hlen; lia
       end.
Qed.

Lemma digits_cons (c : ascii) (s : string) :
  py (String c s) = N_of_ascii c :: py s.
Proof. reflexivity. Qed.

Lemma digits_value_acc (d : Decimal.uint) : forall acc : positive,
  fold_left digit_step (py (NilEmpty.string_of_uint d)) (Z.pos acc)
  = Z.pos (Pos.of_uint_acc d acc).
Proof.
  induction d; intros acc; [done|..];
    cbn [NilEmpty.string_of_uint Pos.of_uint_acc];
    rewrite digits_cons; cbn [fold_left]; rewrite <- IHd; f_equal;
    unfold digit_step; vm_compute (Z.of_N _); lia.
Qed.

Lemma digits_value (d : Decimal.uint) :
  int_of_digits (py (NilEmpty.string_of_uint d)) = Z.of_N (Pos.of_uint d).
Proof.
  unfold int_of_digits. change (fun acc d0 => (acc * 10 + Z.of_N (d0 - 48))%Z)
    with digit_step.
  induction d; [done|exact IHd|..];
    cbn [NilEmpty.string_of_uint Pos.of_uint];
    rewrite digits_cons; cbn [fold_left];
    vm_compute (digit_step 0 _); apply digits_value_acc.
Qed.
Lemma take_while_digits (ds rest : str) :
  forallb is_digit ds = true -> ends_number rest ->
  take_while is_digit (ds ++ rest) = ds /\ drop_while is_digit (ds ++ rest) = rest.
Proof.
  intros Hds Hrest. induction ds as [|d ds IH]; cbn [app forallb] in *.
  - destruct rest as [|c rest]; [done|]. destruct Hrest as [Hc _].
    cbn [take_while drop_while]. by rewrite Hc.
  - apply andb_true_iff in Hds as [Hd Hds]. cbn [take_while drop_while].
    rewrite Hd. by destruct (IH Hds) as [-> ->].
Qed.

Lemma scan_frac_none (rest : str) : ends_number rest -> scan_frac rest = ([], rest).
Proof.
  destruct rest as [|c [|d rest]]; try done. intros (_ & Hdot & _). simpl.
  by destruct (N.eqb_spec c 46).
Qed.

Lemma scan_exp_none (rest : str) : ends_number rest -> scan_exp rest = ([], rest).
Proof.
  destruct rest as [|c rest]; [done|]. intros (_ & _ & He & HE). simpl.
  destruct (N.eqb_spec c 101); [done|]. by destruct (N.eqb_spec c 69).
Qed.

(** The digits of a positive int are read back as its value. *)
Lemma scan_digits (p : positive) (rest : str) :
  ends_number rest ->
  let ds := py (NilEmpty.string_of_uint (Pos.to_uint p)) in
  exists d ds', ds = d :: ds' /\ is_digit d = true /\ d <> 48%N /\ d <> 45%N /\
    scan_integer (ds ++ rest) = Some (ds, rest) /\
    int_of_digits ds = Z.pos p.
Proof.
  intros Hrest ds.
  pose proof (string_of_uint_digits (Pos.to_uint p)) as Hdigits. fold ds in Hdigits.
  assert (Hvalue : int_of_digits ds = Z.pos p).
  { subst ds. by rewrite digits_value, DecimalPos.Unsigned.of_to. }
  assert (Hhead : exists d ds', ds = d :: ds' /\ d <> 48%N).
  { subst ds. pose proof (to_uint_head p) as Hnz.
    pose proof (DecimalPos.Unsigned.to_uint_nonnil p) as Hnn.
    destruct (Pos.to_uint p) as [|u|u|u|u|u|u|u|u|u|u]; [done|by destruct (Hnz u)|..];
      cbn [NilEmpty.string_of_uint]; rewrite digits_cons; eexists _, _;
      (split; [reflexivity|discriminate]). }
  destruct Hhead as (d & ds' & Hds & Hd). exists d, ds'.
  rewrite Hds in Hdigits |- *. simpl in Hdigits.
  apply andb_true_iff in Hdigits as [Hdig Hdigits].
  split; [done|]. split; [done|]. split; [done|]. split.
  { intros ->. discriminate. }
  split; [|by rewrite <- Hds].
  cbn [app scan_integer]. destruct (N.eqb_spec d 48); [done|]. rewrite Hdig.
  by destruct (take_while_digits ds' rest Hdigits Hrest) as [-> ->].
Qed.

Lemma scan_number_parts (s sign s1 ds s2 : str) :
  scan_sign s = (sign, s1) -> scan_integer s1 = Some (ds, s2) ->
  ends_number s2 ->
  scan_number s
  = Some (JInt (match sign with
                | [] => int_of_digits ds
                | _ => - int_of_digits ds
                end), s2).
Proof.
  intros Hsign Hint Hends. unfold scan_number.
  by rewrite Hsign, Hint, scan_frac_none, scan_exp_none.
Qed.

(** An int that has been written is read back as it was. *)
Lemma scan_number_int (z : Z) (rest : str) :
  ends_number rest ->
  scan_number (str_of_int z ++ rest) = Some (JInt z, rest).
Proof.
  intros Hrest. unfold str_of_int, NilZero.string_of_int, NilZero.string_of_uint.
  destruct z as [|p|p]; cbn [Z.to_int].
  - change (scan_number (48%N :: rest) = Some (JInt 0, rest)).
    by rewrite (scan_number_parts (48%N :: rest) [] (48%N :: rest) [48%N] rest).
  - destruct (scan_digits p rest Hrest)
      as (d & ds' & Hds & Hdig & Hnz & Hminus & Hscan & Hval).
    assert (Htext : py (match Pos.to_uint p with
                        | Decimal.Nil => "0"%string
                        | _ => NilEmpty.string_of_uint (Pos.to_uint p)
                        end) = py (NilEmpty.string_of_uint (Pos.to_uint p))).
    { pose proof (DecimalPos.Unsigned.to_uint_nonnil p). by destruct (Pos.to_uint p). }
    rewrite Htext.
    assert (Hsign : scan_sign (py (NilEmpty.string_of_uint (Pos.to_uint p)) ++ rest)
                    = ([], py (NilEmpty.string_of_uint (Pos.to_uint p)) ++ rest)).
    { rewrite Hds. cbn [app scan_sign]. by destruct (N.eqb_spec d 45). }
    by rewrite (scan_number_parts _ _ _ _ rest Hsign Hscan Hrest), Hval.
  - destruct (scan_digits p rest Hrest)
      as (d & ds' & Hds & Hdig & Hnz & Hminus & Hscan & Hval).
    assert (Htext : py (String "-" (match Pos.to_uint p with
                        | Decimal.Nil => "0"%string
                        | _ => NilEmpty.string_of_uint (Pos.to_uint p)
                        end)) = 45%N :: py (NilEmpty.string_of_uint (Pos.to_uint p))).
    { pose proof (DecimalPos.Unsigned.to_uint_nonnil p). by destruct (Pos.to_uint p). }
    rewrite Htext.
    assert (Hsign : scan_sign (45%N :: py (NilEmpty.string_of_uint (Pos.to_uint p)) ++ rest)
                    = ([45%N], py (NilEmpty.string_of_uint (Pos.to_uint p)) ++ rest))
      by reflexivity.
    cbn [app]. by rewrite (scan_number_parts _ _ _ _ rest Hsign Hscan Hrest), Hval.
Qed.

(** ** Values through json.dumps and json.loads *)

Lemma json_ind' (P : json -> Prop) :
  P JNull -> (forall b, P (JBool b)) -> (forall z, P (JInt z)) ->
  (forall literal, P (JFloat literal)) -> (forall s, P (JStr s)) ->
  (forall items, Forall P items -> P (JArr items)) ->
  (forall members, Forall (fun m => P m.2) members -> P (JObj members)) ->
  forall v, P v.
Proof.
  intros Hnull Hbool Hint Hfloat Hstr Harr Hobj. fix IH 1.
  intros [|b|z|literal|s|items|members].
  - exact Hnull.
  - apply Hbool.
  - apply Hint.
  - apply Hfloat.
  - apply Hstr.
  - apply Harr. induction items as [|x items IHitems]; constructor;
      [apply IH|exact IHitems].
  - apply Hobj. induction members as [|[k x] members IHmembers]; constructor;
      [apply IH|exact IHmembers].
Qed.

Lemma skip_ws_start (c : N) (t : str) : is_ws c = false -> skip_ws (c :: t) = c :: t.
Proof. intros Hc. unfold skip_ws. simpl. by rewrite Hc. Qed.

Lemma skip_ws_newline_indent (level : nat) (t : str) :
  skip_ws (newline_indent level ++ t) = skip_ws t.
Proof.
  unfold newline_indent, skip_ws. cbn [app drop_while]. change (is_ws NL) with true.
  cbv iota. induction (2 * level) as [|k IH]; [done|]. simpl. exact IH.
Qed.

Lemma value_start_not_ws (c : N) : value_start c = true -> is_ws c = false.
Proof.
  unfold value_start, is_ws, is_digit.
  repeat match goal with
         | |- context [(c =? ?k)%N] => destruct (N.eqb_spec c k); [subst; done|]
         end.
  simpl. intros H. apply andb_true_iff in H as [H1 H2]. done.
Qed.

Lemma str_of_int_head (z : Z) :
  exists c t, str_of_int z = c :: t /\ (is_digit c = true \/ c = 45%N).
Proof.
  pose proof (str_of_int_chars z) as Hchars.
  destruct (str_of_int z) as [|c t] eqn:Hz.
  - exfalso. unfold str_of_int, NilZero.string_of_int, NilZero.string_of_uint in Hz.
    destruct z as [|p|p]; cbn [Z.to_int] in Hz; [done|..];
      pose proof (DecimalPos.Unsigned.to_uint_nonnil p);
      destruct (Pos.to_uint p); done.
  - exists c, t. split; [done|]. simpl in Hchars.
    apply andb_true_iff in Hchars as [Hc _]. apply orb_true_iff in Hc as [?|Hc]; [auto|].
    right. by apply N.eqb_eq.
Qed.

(** A written value is not empty and begins as a value does. *)
Lemma iterencode_head (level : nat) (v : json) :
  float_free v = true ->
  exists c t, iterencode level v = c :: t /\ value_start c = true.
Proof.
  destruct v as [|[]|z|literal|s|[|x items]|[|[k x] members]]; try done;
    try (intros _; eexists _, _; split; [reflexivity|reflexivity]).
  intros _. destruct (str_of_int_head z) as (c & t & Hz & Hc).
  exists c, t. split; [done|]. unfold value_start.
  destruct Hc as [->| ->]; [|done]. by rewrite !orb_true_r.
Qed.

Lemma delimited_ends_number (rest : str) : delimited rest -> ends_number rest.
Proof.
  destruct rest as [|c rest]; [done|]. by intros [->| ->].
Qed.

Lemma scan_once_number (c : N) (t : str) (fuel : nat) (r : json * str) :
  is_digit c = true \/ c = 45%N ->
  scan_number (c :: t) = Some r -> scan_once (S fuel) (c :: t) = Some r.
Proof.
  intros Hc Hnum. cbn [scan_once].
  assert (Hne : forall k, is_digit k = false -> k <> 45%N -> (c =? k)%N = false).
  { intros k Hk Hm. apply N.eqb_neq. intros ->. destruct Hc; congruence. }
  rewrite !Hne by done.
  assert (Hsw : forall lit k rest', lit = k :: rest' -> is_digit k = false ->
                  k <> 45%N -> startswith (c :: t) lit = false).
  { intros lit k rest' -> Hk Hm. cbn [startswith].
    rewrite N.eqb_sym, Hne by done. done. }
  rewrite (Hsw (py "null") 110%N (py "ull")) by done.
  rewrite (Hsw (py "true") 116%N (py "rue")) by done.
  rewrite (Hsw (py "false") 102%N (py "alse")) by done.
  by rewrite Hnum.
Qed.
